(** * Verification of the single-domain crawler (Crawler.py)

    A shallow embedding of the crawl loop, its URL handling, its content
    extractor and its shutdown paths, followed by the theorems that settle
    the specification's claims against that embedding.

    Conventions.
    - Python [str] values are modelled as [string]: a character is a
      code point below U+0100, and [str.lower], [str.isspace] and
      [str.strip] are Python's on that range.  Text with code points from
      U+0100 on is outside the model.
    - The module-level globals [visited_urls], [pages_crawled], [crawl_data]
      and [last_save_count] become the fields of an explicit [state].
    - Raising is modelled with sum types; what is written to the output
      file is modelled as a trace of [effect]s.
    - The libraries the program calls (urllib.parse, requests, bs4) are
      modelled by the small executable definitions of the first modules;
      each states which library function it stands for. *)

From Stdlib Require Import ZArith String Ascii List Bool Lia DecimalString.
From stdpp Require Import base gmap sets list strings.

(* ===================================================================== *)
(** ** Python string methods used by the crawler *)
(* ===================================================================== *)

Module PyStr.

Definition code (c : ascii) : nat := nat_of_ascii c.

Definition is_upper (c : ascii) : bool := (65 <=? code c) && (code c <=? 90).
Definition is_lower (c : ascii) : bool := (97 <=? code c) && (code c <=? 122).
Definition is_alpha (c : ascii) : bool := is_upper c || is_lower c.
Definition is_digit (c : ascii) : bool := (48 <=? code c) && (code c <=? 57).

(** [str.isspace] below U+0100: TAB..CR, FS..US, the space, NEL (U+0085)
    and the no-break space (U+00A0).  These are the characters that
    [str.strip()] removes. *)
Definition is_space (c : ascii) : bool :=
  ((9 <=? code c) && (code c <=? 13)) || ((28 <=? code c) && (code c <=? 32)) ||
  (code c =? 133) || (code c =? 160).

(** The upper-case letters of U+00C0..U+00DE (all but the multiplication
    sign U+00D7); like A..Z their lower-case forms lie 32 code points up. *)
Definition is_upper_latin1 (c : ascii) : bool :=
  (192 <=? code c) && (code c <=? 222) && negb (code c =? 215).

Definition lower_char (c : ascii) : ascii :=
  if is_upper c || is_upper_latin1 c then ascii_of_nat (code c + 32) else c.

(** [s.lower()] *)
Fixpoint lower (s : string) : string :=
  match s with
  | EmptyString => EmptyString
  | String c r => String (lower_char c) (lower r)
  end.

(** [c in s] for a one-character [c] *)
Fixpoint contains_char (c : ascii) (s : string) : bool :=
  match s with
  | EmptyString => false
  | String a r => Ascii.eqb a c || contains_char c r
  end.

Fixpoint forallb_str (p : ascii -> bool) (s : string) : bool :=
  match s with
  | EmptyString => true
  | String a r => p a && forallb_str p r
  end.

(** [s.startswith(p)] *)
Definition startswith (s p : string) : bool := String.prefix p s.

(** [sub in s] *)
Fixpoint contains (sub s : string) : bool :=
  String.prefix sub s ||
  match s with
  | EmptyString => false
  | String _ r => contains sub r
  end.

(** [s.endswith(suffix)]: [s] is [suffix], or its tail ends with it. *)
Fixpoint endswith (s suffix : string) : bool :=
  String.eqb s suffix ||
  match s with
  | EmptyString => false
  | String _ r => endswith r suffix
  end.

(** [s.endswith(tuple)] *)
Definition endswith_any (s : string) (suffixes : list string) : bool :=
  existsb (endswith s) suffixes.

(** [s.partition(c)]: the text before the first [c] and, when [c]
    occurs, the text after it.  [s.split(c)[0]] is the first component,
    [s.split(c, 1)] are both. *)
Fixpoint partition (c : ascii) (s : string) : string * option string :=
  match s with
  | EmptyString => (EmptyString, None)
  | String a r =>
      if Ascii.eqb a c then (EmptyString, Some r)
      else let '(h, t) := partition c r in (String a h, t)
  end.

Definition before (c : ascii) (s : string) : string := fst (partition c s).

(** The longest prefix whose characters all fail [stop], and the rest. *)
Fixpoint span_until (stop : ascii -> bool) (s : string) : string * string :=
  match s with
  | EmptyString => (EmptyString, EmptyString)
  | String a r =>
      if stop a then (EmptyString, s)
      else let '(h, t) := span_until stop r in (String a h, t)
  end.

(** [s.lstrip(chars)] and [s.rstrip(chars)], the character set given as
    a predicate. *)
Fixpoint lstrip_by (p : ascii -> bool) (s : string) : string :=
  match s with
  | EmptyString => EmptyString
  | String a r => if p a then lstrip_by p r else s
  end.

Fixpoint rstrip_by (p : ascii -> bool) (s : string) : string :=
  match s with
  | EmptyString => EmptyString
  | String a r =>
      match rstrip_by p r with
      | EmptyString => if p a then EmptyString else String a EmptyString
      | r' => String a r'
      end
  end.

(** [s.rstrip(c)] for a one-character [c] *)
Definition rstrip (c : ascii) (s : string) : string := rstrip_by (Ascii.eqb c) s.

(** [s.strip()] *)
Definition strip (s : string) : string := rstrip_by is_space (lstrip_by is_space s).

(** [s.replace(c, empty)] with a set of characters *)
Fixpoint remove_chars (p : ascii -> bool) (s : string) : string :=
  match s with
  | EmptyString => EmptyString
  | String a r => if p a then remove_chars p r else String a (remove_chars p r)
  end.

(** [sep.join(parts)] *)
Fixpoint join (sep : string) (parts : list string) : string :=
  match parts with
  | [] => EmptyString
  | [p] => p
  | p :: rest => p +:+ sep +:+ join sep rest
  end.

Definition is_empty (s : string) : bool :=
  match s with EmptyString => true | _ => false end.

Definition drop (n : nat) (s : string) : string :=
  String.substring n (String.length s - n) s.

End PyStr.

(* ===================================================================== *)
(** ** urllib.parse: [urlparse] and [ParseResult.geturl]

    The model follows CPython 3.11's [urlsplit], [urlparse], [urlunsplit]
    and [urlunparse].  A [ValueError] is modelled by [None]; it is raised
    for unbalanced square brackets in the network location.  Two further
    checks of [urlsplit] are not modelled: that of the text between
    balanced brackets (from Python 3.11.4 on, which refuses a host such
    as [[bad]]) and that of a non-ASCII network location under NFKC
    normalization.  A URL that only those checks refuse parses here. *)
(* ===================================================================== *)

Module UrlParse.
Import PyStr.

Record ParseResult := mkParseResult {
  scheme : string;
  netloc : string;
  path : string;
  params : string;
  query : string;
  fragment : string
}.

Definition scheme_char (c : ascii) : bool :=
  is_alpha c || is_digit c ||
  Ascii.eqb c "+" || Ascii.eqb c "-" || Ascii.eqb c ".".

Definition uses_netloc : list string :=
  [""; "ftp"; "http"; "gopher"; "nntp"; "telnet"; "imap"; "wais"; "file";
   "mms"; "https"; "shttp"; "snews"; "prospero"; "rtsp"; "rtspu"; "rsync";
   "svn"; "svn+ssh"; "sftp"; "nfs"; "git"; "git+ssh"; "ws"; "wss"].

Definition uses_params : list string :=
  [""; "ftp"; "hdl"; "prospero"; "http"; "imap"; "https"; "shttp"; "rtsp";
   "rtspu"; "sip"; "sips"; "mms"; "sftp"; "tel"].

Definition mem (s : string) (l : list string) : bool := existsb (String.eqb s) l.

(** Leading C0 control characters and spaces are stripped. *)
Definition c0_or_space (c : ascii) : bool := code c <=? 32.

(** TAB, LF and CR are removed wherever they occur. *)
Definition unsafe_byte (c : ascii) : bool :=
  (code c =? 9) || (code c =? 10) || (code c =? 13).

(** The [scheme:] prefix: a non-empty run of scheme characters that
    starts with a letter and is followed by a colon. *)
Definition split_scheme (url : string) : string * string :=
  match partition ":" url with
  | (String c0 pre, Some rest) =>
      if is_alpha c0 && forallb_str scheme_char (String c0 pre)
      then (lower (String c0 pre), rest)
      else (EmptyString, url)
  | _ => (EmptyString, url)
  end.

Definition netloc_stop (c : ascii) : bool :=
  Ascii.eqb c "/" || Ascii.eqb c "?" || Ascii.eqb c "#".

(** [_splitnetloc(url, 2)] for a [url] that starts with two slashes *)
Definition splitnetloc (url : string) : string * string :=
  span_until netloc_stop (drop 2 url).

Definition brackets_unbalanced (nl : string) : bool :=
  xorb (contains_char "[" nl) (contains_char "]" nl).

Definition split_at (c : ascii) (s : string) : string * string :=
  match partition c s with
  | (h, Some t) => (h, t)
  | (h, None) => (h, EmptyString)
  end.

(** [_splitparams]: the parameters start at the first semicolon of the
    last path segment. *)
Fixpoint splitparams (url : string) : string * string :=
  match url with
  | EmptyString => (EmptyString, EmptyString)
  | String a r =>
      if contains_char "/" r then
        let '(h, t) := splitparams r in (String a h, t)
      else split_at ";" url
  end.

Definition urlparse (url0 : string) : option ParseResult :=
  let url := remove_chars unsafe_byte (lstrip_by c0_or_space url0) in
  let '(sch, url) := split_scheme url in
  let '(nl, url) :=
    if startswith url "//" then splitnetloc url else (EmptyString, url) in
  if brackets_unbalanced nl then None
  else
    let '(url, frag) := split_at "#" url in
    let '(url, qry) := split_at "?" url in
    let '(url, prm) :=
      if mem sch uses_params && contains_char ";" url
      then splitparams url else (url, EmptyString) in
    Some (mkParseResult sch nl url prm qry frag).

(** [urlunparse] *)
Definition geturl (p : ParseResult) : string :=
  let url := if is_empty (params p) then path p
             else path p +:+ ";" +:+ params p in
  let url :=
    if negb (is_empty (netloc p)) ||
       (negb (is_empty (scheme p)) && mem (scheme p) uses_netloc &&
        negb (startswith url "//"))
    then
      let url := if negb (is_empty url) && negb (startswith url "/")
                 then "/" +:+ url else url in
      "//" +:+ netloc p +:+ url
    else url in
  let url := if is_empty (scheme p) then url else scheme p +:+ ":" +:+ url in
  let url := if is_empty (query p) then url else url +:+ "?" +:+ query p in
  let url := if is_empty (fragment p) then url else url +:+ "#" +:+ fragment p in
  url.

(** [p._replace(fragment=empty)] *)
Definition replace_fragment_empty (p : ParseResult) : ParseResult :=
  mkParseResult (scheme p) (netloc p) (path p) (params p) (query p) EmptyString.

End UrlParse.

(* ===================================================================== *)
(** ** Python exceptions, as far as the [except] clauses tell them apart *)
(* ===================================================================== *)

Inductive exn :=
| Timeout (msg : string)            (* requests.exceptions.Timeout *)
| RequestException (msg : string)   (* any other requests RequestException:
                                       HTTPError, ConnectionError, ... *)
| Exception (type_name msg : string) (* any other subclass of Exception *)
| KeyboardInterrupt
| SystemExit (code : Z).

(** [isinstance(e, Exception)]: KeyboardInterrupt and SystemExit derive
    from BaseException only. *)
Definition is_Exception (e : exn) : bool :=
  match e with
  | Timeout _ | RequestException _ | Exception _ _ => true
  | KeyboardInterrupt | SystemExit _ => false
  end.

(* ===================================================================== *)
(** ** bs4: the parsed document

    A document is the list of top-level nodes of a [BeautifulSoup] object.
    A [NavigableString] is a text node that [get_text] yields; a
    [SpecialString] is one of the string kinds it passes over (comments,
    declarations and the like).  A [Tag] carries its name, its
    single-valued attributes, the tokens of its [class] attribute and its
    contents.  Searches walk the descendants in document order, as bs4's
    [find], [find_all] and [select] do. *)
(* ===================================================================== *)

Module Soup.
Import PyStr.

Record element := mkElement {
  name : string;
  attrs : list (string * string);
  classes : list string
}.

#[warnings="-register-all"]
Inductive node :=
| NavigableString (s : string)
| SpecialString (s : string)
| Tag (e : element) (contents : list node).

Definition soup := list node.

(** [tag.get(key)] *)
Fixpoint get_attr (key : string) (l : list (string * string)) : option string :=
  match l with
  | [] => None
  | (k, v) :: r => if String.eqb k key then Some v else get_attr key r
  end.

(** [tag.descendants], in document order *)
Fixpoint descendants (n : node) : list node :=
  match n with
  | NavigableString _ | SpecialString _ => []
  | Tag _ cs => flat_map (fun c => c :: descendants c) cs
  end.

Definition soup_descendants (d : soup) : list node :=
  flat_map (fun c => c :: descendants c) d.

Definition on_element (p : element -> bool) (n : node) : bool :=
  match n with
  | NavigableString _ | SpecialString _ => false
  | Tag e _ => p e
  end.

(** [soup.find(...)]: the first matching tag in document order *)
Definition find (p : element -> bool) (d : soup) : option node :=
  List.find (on_element p) (soup_descendants d).

(** [soup.find_all(...)] *)
Definition find_all (p : element -> bool) (d : soup) : list node :=
  List.filter (on_element p) (soup_descendants d).

Definition has_name (t : string) (e : element) : bool := String.eqb (name e) t.

Definition has_id (i : string) (e : element) : bool :=
  match get_attr "id" (attrs e) with
  | Some v => String.eqb v i
  | None => false
  end.

Definition has_class (c : string) (e : element) : bool :=
  existsb (String.eqb c) (classes e).

Definition has_attr (a : string) (e : element) : bool :=
  match get_attr a (attrs e) with Some _ => true | None => false end.

Definition attr_contains (a v : string) (e : element) : bool :=
  match get_attr a (attrs e) with
  | Some w => contains v w
  | None => false
  end.

(** The strings below a node, in document order ([_all_strings]) *)
Fixpoint all_strings (n : node) : list string :=
  match n with
  | NavigableString s => [s]
  | SpecialString _ => []
  | Tag _ cs => flat_map all_strings cs
  end.

Definition soup_strings (d : soup) : list string := flat_map all_strings d.

(** [get_text(separator=' ', strip=True)] over a sequence of strings:
    each is stripped, empty ones are skipped, the rest are joined. *)
Definition joined_text (strs : list string) : string :=
  join " " (List.filter (fun s => negb (is_empty s)) (map strip strs)).

Definition get_text (n : node) : string := joined_text (all_strings n).
Definition soup_get_text (d : soup) : string := joined_text (soup_strings d).

(** [tag.string]: the only child when it is a string, looked for
    through chains of only children *)
Fixpoint tag_string (n : node) : option string :=
  match n with
  | NavigableString s | SpecialString s => Some s
  | Tag _ cs =>
      match cs with
      | [c] => tag_string c
      | _ => None
      end
  end.

(** Each string below a node together with the elements above it,
    innermost first *)
Fixpoint text_paths (above : list element) (n : node)
  : list (list element * string) :=
  match n with
  | NavigableString s => [(above, s)]
  | SpecialString _ => []
  | Tag e cs => flat_map (text_paths (e :: above)) cs
  end.

Definition soup_text_paths (d : soup) : list (list element * string) :=
  flat_map (text_paths []) d.

(** [element.decompose()] for every tag that satisfies [p]: the tag
    and everything below it leave the tree. *)
Fixpoint prune (p : element -> bool) (n : node) : node :=
  match n with
  | NavigableString s => NavigableString s
  | SpecialString s => SpecialString s
  | Tag e cs =>
      Tag e (flat_map (fun c => if on_element p c then [] else [prune p c]) cs)
  end.

Definition soup_prune (p : element -> bool) (d : soup) : soup :=
  flat_map (fun c => if on_element p c then [] else [prune p c]) d.

(** The selectors the crawler passes to [select].  Each is a compound
    selector without combinators, so whether a tag matches depends on
    that tag alone.  [SelMalformed] stands for a text the selector
    parser rejects. *)
Inductive selector :=
| SelTag (t : string)
| SelClass (c : string)
| SelId (i : string)
| SelTagClass (t c : string)
| SelTagAttrContains (t a v : string)
| SelMalformed (text : string).

(** The compiled selector, or the [SelectorSyntaxError].  The message
    of the exception is modelled by the selector text; soupsieve's own
    message is a longer text that quotes it. *)
Definition compile (s : selector) : exn + (element -> bool) :=
  match s with
  | SelTag t => inr (has_name t)
  | SelClass c => inr (has_class c)
  | SelId i => inr (has_id i)
  | SelTagClass t c => inr (fun e => has_name t e && has_class c e)
  | SelTagAttrContains t a v => inr (fun e => has_name t e && attr_contains a v e)
  | SelMalformed text => inl (Exception "SelectorSyntaxError" text)
  end.

(** [for selector in selectors: for element in soup.select(selector):
    element.decompose()].  [select] compiles the selector, which can
    raise, and returns the tags that satisfy it; decomposing each of them
    is [soup_prune]. *)
Fixpoint decompose_selected (sels : list selector) (d : soup) : exn + soup :=
  match sels with
  | [] => inr d
  | s :: rest =>
      match compile s with
      | inl e => inl e
      | inr p => decompose_selected rest (soup_prune p d)
      end
  end.

(** Induction over nodes that reaches the contents of a tag. *)
Section NodeInduction.
Variable P : node -> Prop.
Hypothesis P_string : forall s, P (NavigableString s).
Hypothesis P_special : forall s, P (SpecialString s).
Hypothesis P_tag : forall e cs, Forall P cs -> P (Tag e cs).

Fixpoint node_induction (n : node) : P n :=
  match n with
  | NavigableString s => P_string s
  | SpecialString s => P_special s
  | Tag e cs =>
      P_tag e cs
            ((fix all (l : list node) : Forall P l :=
                match l with
                | [] => @List.Forall_nil node P
                | c :: r => @List.Forall_cons node P c r (node_induction c) (all r)
                end) cs)
  end.
End NodeInduction.

End Soup.

(* ===================================================================== *)
(** ** requests: what a call of [requests.get] can produce *)
(* ===================================================================== *)

Module Requests.
Import PyStr Soup.

(** The parts of a [Response] the crawler reads.  The two parse fields
    give what [BeautifulSoup(response.content, parser)] does with the
    body under either parser. *)
Record response := mkResponse {
  status_code : Z;
  reason : string;
  url : string;
  content_type_header : option string;
  lxml_soup : option soup;            (* [None]: the constructor raised *)
  html_parser_soup : exn + soup
}.

Definition decimal (z : Z) : string := NilZero.string_of_int (Z.to_int z).

(** The message [raise_for_status] builds: one for the 4xx codes, one
    for the 5xx codes, and the empty text for any other code. *)
Definition http_error_msg (r : response) : string :=
  if (400 <=? status_code r)%Z && (status_code r <? 500)%Z then
    decimal (status_code r) +:+ " Client Error: " +:+ reason r +:+
    " for url: " +:+ url r
  else if (500 <=? status_code r)%Z && (status_code r <? 600)%Z then
    decimal (status_code r) +:+ " Server Error: " +:+ reason r +:+
    " for url: " +:+ url r
  else EmptyString.

(** [response.raise_for_status()]: an [HTTPError] when there is a
    message, nothing otherwise. *)
Definition raise_for_status (r : response) : option exn :=
  if is_empty (http_error_msg r) then None
  else Some (RequestException (http_error_msg r)).

(** What happens between [time.sleep] and the return of [requests.get]:
    an exception, the operator's interrupt (SIGINT, for which the
    program installs [signal_handler]), or a response. *)
Inductive fetch_outcome :=
| Raises (e : exn)
| Interrupted
| Responds (r : response).

End Requests.

(* ===================================================================== *)
(** ** The crawler *)
(* ===================================================================== *)

Module Crawler.
Import PyStr UrlParse Soup Requests.

Definition START_URL : string := "https://www.workstream.us/".
Definition SAVE_EVERY_N_PAGES : nat := 200.

(** One value of the [crawl_data] dictionary; [status] is its
    ["status"] field. *)
Inductive page_record :=
| Success (text title extraction_method : string)
| SkippedNonHtml (content_type : string)
| Error (error_message : string)
| ProcessingError (error_message : string).

Definition status (r : page_record) : string :=
  match r with
  | Success _ _ _ => "success"
  | SkippedNonHtml _ => "skipped_non_html"
  | Error _ => "error"
  | ProcessingError _ => "processing_error"
  end.

(** The globals of the module, and the local [queue] of [crawl]. *)
Record state := mkState {
  queue : list string;
  visited_urls : gset string;
  pages_crawled : nat;
  crawl_data : gmap string page_record;
  last_save_count : nat
}.

Definition set_queue (q : list string) (s : state) : state :=
  mkState q (visited_urls s) (pages_crawled s) (crawl_data s) (last_save_count s).

Definition add_visited (u : string) (s : state) : state :=
  mkState (queue s) ({[u]} ∪ visited_urls s) (pages_crawled s) (crawl_data s)
          (last_save_count s).

(** [crawl_data[u] = r] *)
Definition store (u : string) (r : page_record) (s : state) : state :=
  mkState (queue s) (visited_urls s) (pages_crawled s)
          (<[u := r]> (crawl_data s)) (last_save_count s).

(** [pages_crawled += 1] *)
Definition count_page (s : state) : state :=
  mkState (queue s) (visited_urls s) (pages_crawled s + 1) (crawl_data s)
          (last_save_count s).

(** [last_save_count = pages_crawled] *)
Definition mark_saved (s : state) : state :=
  mkState (queue s) (visited_urls s) (pages_crawled s) (crawl_data s)
          (pages_crawled s).

(** A call [save_data(data, OUTPUT_FILE, is_final)].  The function
    catches its own write errors, so the call always returns. *)
Inductive effect :=
| Saved (data : gmap string page_record) (is_final : bool).

Definition excluded_extensions : list string :=
  [".pdf"; ".jpg"; ".jpeg"; ".png"; ".gif"; ".zip"; ".docx"; ".xlsx";
   ".pptx"; ".mp4"; ".mov"; ".avi"; ".svg"; ".css"; ".js"; ".xml";
   ".txt"; ".ico"; ".webp"; ".woff"; ".woff2"; ".ttf"; ".eot"; ".map"].

(** [is_valid_url], the global [ALLOWED_DOMAIN] made a parameter.  The
    [ValueError] of [urlparse] is caught and answered with [False]. *)
Definition is_valid_url (ALLOWED_DOMAIN : string) (url : string) : bool :=
  match urlparse url with
  | None => false
  | Some parsed =>
      if negb (mem (scheme parsed) ["http"; "https"] &&
               String.eqb (netloc parsed) ALLOWED_DOMAIN &&
               negb (contains_char "#" url))
      then false
      else
        let lower_url := lower url in
        if endswith_any (before "#" (before "?" lower_url)) excluded_extensions
        then false
        else true
  end.

(** Lines 138-140: the dequeued URL loses its trailing slashes when its
    path is neither empty nor the root. *)
Definition clean_url (current_url : string) : exn + string :=
  match urlparse current_url with
  | None => inl (Exception "ValueError" "Invalid IPv6 URL")
  | Some parsed_url_temp =>
      if negb (is_empty (path parsed_url_temp)) &&
         negb (String.eqb (path parsed_url_temp) "/") &&
         endswith current_url "/"
      then inr (rstrip "/" current_url)
      else inr current_url
  end.

(** Lines 259-262: the resolved link without its fragment, and without
    trailing slashes under the same condition. *)
Definition normalize_link (absolute_url : string) : exn + string :=
  match urlparse absolute_url with
  | None => inl (Exception "ValueError" "Invalid IPv6 URL")
  | Some parsed_new_url =>
      let absolute_url := geturl (replace_fragment_empty parsed_new_url) in
      if negb (is_empty (path parsed_new_url)) &&
         negb (String.eqb (path parsed_new_url) "/") &&
         endswith absolute_url "/"
      then inr (rstrip "/" absolute_url)
      else inr absolute_url
  end.

(** Lines 265-267: the guarded append to the queue. *)
Definition enqueue (ALLOWED_DOMAIN : string) (absolute_url : string)
           (visited : gset string) (q : list string) : list string :=
  if is_valid_url ALLOWED_DOMAIN absolute_url &&
     bool_decide (absolute_url ∉ visited) &&
     bool_decide (absolute_url ∉ q)
  then q ++ [absolute_url]
  else q.

(** *** The extractor (lines 181-239) *)

Definition wrapper_selectors : list selector :=
  [SelTag "header"; SelTag "footer"; SelTag "nav";
   SelClass "announcement_bar"; SelTag "script"; SelTag "style";
   SelTag "noscript"].

(** The two texts written as regular expressions are not selectors:
    the first has a dot that no class name follows, the second an
    attribute name that starts with a digit. *)
Definition body_selectors : list selector :=
  [SelTag "header"; SelTag "footer"; SelTag "nav";
   SelClass "announcement_bar";
   SelTagClass "div" "header_mega_menu"; SelTagClass "div" "header_fixed_manage";
   SelTag "noscript"; SelTag "script"; SelTag "style";
   SelClass "social-links"; SelId "sidebar"; SelClass "advertisement";
   SelClass "cookie-consent";
   SelClass "hs-skip-link"; SelMalformed "#hs-web-interactives-.*";
   SelMalformed ".go[0-9]+";
   SelTagAttrContains "iframe" "src" "googletagmanager"].

Definition is_main_content (e : element) : bool :=
  has_name "main" e && has_id "main-content" e.

Definition is_wrapper (e : element) : bool :=
  has_name "div" e && has_class "body-container-wrapper" e.

Definition METHOD_MAIN_ID : string := "main#main-content".
Definition METHOD_MAIN : string := "<main> tag".
Definition METHOD_WRAPPER : string := "div.body-container-wrapper".
Definition METHOD_BODY : string := "Fallback (Body Cleanup)".
Definition METHOD_NO_BODY : string := "Fallback (Full Document - No Body)".

(** The text and the extraction method, or the exception raised on the
    way.  The working copy made by re-parsing the serialised subtree
    is modelled as the subtree itself. *)
Definition extract (doc : soup) : exn + (string * string) :=
  match find is_main_content doc with
  | Some main_content_area => inr (get_text main_content_area, METHOD_MAIN_ID)
  | None =>
      match find (has_name "main") doc with
      | Some main_content_area => inr (get_text main_content_area, METHOD_MAIN)
      | None =>
          match find is_wrapper doc with
          | Some main_content_area =>
              match decompose_selected wrapper_selectors [main_content_area] with
              | inl e => inl e
              | inr temp_soup => inr (soup_get_text temp_soup, METHOD_WRAPPER)
              end
          | None =>
              match find (has_name "body") doc with
              | Some body =>
                  match decompose_selected body_selectors [body] with
                  | inl e => inl e
                  | inr temp_body_soup =>
                      inr (soup_get_text temp_body_soup, METHOD_BODY)
                  end
              | None => inr (soup_get_text doc, METHOD_NO_BODY)
              end
          end
      end
  end.

Definition NO_TITLE : string := "No Title Found".

(** Line 242 *)
Definition page_title (doc : soup) : string :=
  match find (has_name "title") doc with
  | Some title =>
      match tag_string title with
      | Some s => if is_empty s then NO_TITLE else strip s
      | None => NO_TITLE
      end
  | None => NO_TITLE
  end.

(** *** The crawl loop (lines 132-294)

    [ALLOWED_DOMAIN] is the global computed from the seed at start-up.
    [urljoin] is urllib's resolver of a link against the page URL
    ([inl] when it raises).  [fetch] gives, for each URL, what the
    request for it produces; the loop requests a URL at most once. *)

Section Loop.
Variable ALLOWED_DOMAIN : string.
Variable urljoin : string -> string -> exn + string.
Variable fetch : string -> fetch_outcome.

Definition is_link (e : element) : bool := has_name "a" e && has_attr "href" e.

Definition href_of (link : node) : option string :=
  match link with
  | Tag e _ => get_attr "href" (attrs e)
  | NavigableString _ | SpecialString _ => None
  end.

(** Lines 253-267: the links of the page are appended to the queue
    one by one; an exception stops the walk and leaves the queue as
    it is by then. *)
Fixpoint queue_links (current_url : string) (links : list node)
         (visited : gset string) (q : list string) : list string * option exn :=
  match links with
  | [] => (q, None)
  | link :: rest =>
      match href_of link with
      | None => queue_links current_url rest visited q
      | Some href =>
          if is_empty href then queue_links current_url rest visited q
          else
            match urljoin current_url (strip href) with
            | inl e => (q, Some e)
            | inr absolute_url =>
                match normalize_link absolute_url with
                | inl e => (q, Some e)
                | inr absolute_url =>
                    queue_links current_url rest visited
                                (enqueue ALLOWED_DOMAIN absolute_url visited q)
                end
            end
      end
  end.

(** Lines 175-178: lxml first, html.parser when lxml raises.  This is
    the parse during which no interrupt arrives; the pass in which one
    arrives while line 176 runs is [iteration_interrupted_in_parse]
    below. *)
Definition parse (r : response) : exn + soup :=
  match lxml_soup r with
  | Some doc => inr doc
  | None => html_parser_soup r
  end.

(** How the body of the [try] statement ends. *)
Inductive completion :=
| Normal
| Continue
| Raise (e : exn).

(** Lines 272-275 *)
Definition periodic_save (s : state) : state * list effect :=
  if (pages_crawled s mod SAVE_EVERY_N_PAGES =? 0) &&
     (last_save_count s <? pages_crawled s)
  then (mark_saved s, [Saved (crawl_data s) false])
  else (s, []).

(** [signal_handler]: the snapshot, then [sys.exit(0)]. *)
Definition signal_handler (s : state) : list effect * exn :=
  ([Saved (crawl_data s) false], SystemExit 0).

(** Lines 158-275: the body of the [try] statement. *)
Definition try_body (current_url : string) (s : state)
  : state * list effect * completion :=
  match fetch current_url with
  | Raises e => (s, [], Raise e)
  | Interrupted =>
      let '(effs, e) := signal_handler s in (s, effs, Raise e)
  | Responds response =>
      match raise_for_status response with
      | Some e => (s, [], Raise e)
      | None =>
          let content_type :=
            lower (match content_type_header response with
                   | Some v => v
                   | None => EmptyString
                   end) in
          if negb (contains "text/html" content_type) then
            (count_page (store current_url (SkippedNonHtml content_type) s),
             [], Continue)
          else
            match parse response with
            | inl e => (s, [], Raise e)
            | inr doc =>
                match extract doc with
                | inl e => (s, [], Raise e)
                | inr (page_text, extraction_method) =>
                    let s :=
                      store current_url
                            (Success page_text (page_title doc) extraction_method) s in
                    let '(q, raised) :=
                      queue_links current_url (find_all is_link doc)
                                  (visited_urls s) (queue s) in
                    let s := set_queue q s in
                    match raised with
                    | Some e => (s, [], Raise e)
                    | None =>
                        let '(s, effs) := periodic_save (count_page s) in
                        (s, effs, Normal)
                    end
                end
            end
      end
  end.

(** What one pass through the loop body leads to: the next test of
    the loop condition, or an exception that leaves [crawl]. *)
Inductive loop_step :=
| Continues (s : state) (effs : list effect)
| Escapes (e : exn) (s : state) (effs : list effect).

(** Lines 278-294: the [except] clauses, tried in order. *)
Definition handle (current_url : string)
           (r : state * list effect * completion) : loop_step :=
  let '(s, effs, how) := r in
  match how with
  | Normal | Continue => Continues s effs
  | Raise (Timeout _) =>
      Continues (count_page (store current_url (Error "Request timed out") s)) effs
  | Raise (RequestException msg) =>
      Continues (count_page (store current_url (Error msg) s)) effs
  | Raise (Exception type_name msg) =>
      Continues
        (count_page
           (store current_url (ProcessingError (type_name +:+ ": " +:+ msg)) s))
        effs
  | Raise KeyboardInterrupt =>
      Escapes (SystemExit 1) s (effs ++ [Saved (crawl_data s) true])
  | Raise (SystemExit c) => Escapes (SystemExit c) s effs
  end.

(** Lines 135-294 for the URL just taken from the queue; [s] is the
    state after [queue.popleft()]. *)
Definition iteration (raw_url : string) (s : state) : loop_step :=
  match clean_url raw_url with
  | inl e => Escapes e s []
  | inr current_url =>
      if bool_decide (current_url ∈ visited_urls s) then Continues s []
      else handle current_url
                  (try_body current_url (add_visited current_url s))
  end.

(** The state when [crawl(start_url)] reaches its loop. *)
Definition initial (start_url : string) : state :=
  mkState [start_url] ∅ 0 ∅ 0.

(** How a call of [crawl] ends.  The loop need not end, so it is run
    for at most [fuel] passes. *)
Inductive crawl_result :=
| Returned (s : state) (effs : list effect)
| Raised (e : exn) (s : state) (effs : list effect)
| OutOfFuel (s : state) (effs : list effect).

Definition after (pre : list effect) (r : crawl_result) : crawl_result :=
  match r with
  | Returned s effs => Returned s (pre ++ effs)
  | Raised e s effs => Raised e s (pre ++ effs)
  | OutOfFuel s effs => OutOfFuel s (pre ++ effs)
  end.

Fixpoint crawl_loop (fuel : nat) (s : state) : crawl_result :=
  match queue s with
  | [] => Returned s []
  | raw_url :: rest =>
      match fuel with
      | O => OutOfFuel s []
      | S fuel' =>
          match iteration raw_url (set_queue rest s) with
          | Continues s' effs => after effs (crawl_loop fuel' s')
          | Escapes e s' effs => Raised e s' effs
          end
      end
  end.

Definition crawl (fuel : nat) (start_url : string) : crawl_result :=
  crawl_loop fuel (initial start_url).

End Loop.

(** *** The main block (lines 317-333)

    The [try] around [crawl] catches every [Exception] and only prints
    it; the [finally] clause saves; what is not caught goes on to the
    interpreter, which turns [SystemExit(c)] into the exit status [c].
    A run that ends in any other way has the exit status 0. *)

Definition interpreter_exit_status (e : exn) : Z :=
  match e with
  | SystemExit c => c
  | KeyboardInterrupt => 130
  | _ => 1
  end.

Definition main_block (r : crawl_result) : option (list effect * Z) :=
  match r with
  | Returned s effs => Some (effs ++ [Saved (crawl_data s) true], 0%Z)
  | Raised e s effs =>
      if is_Exception e
      then Some (effs ++ [Saved (crawl_data s) true], 0%Z)
      else Some (effs ++ [Saved (crawl_data s) true], interpreter_exit_status e)
  | OutOfFuel _ _ => None
  end.

(** [ALLOWED_DOMAIN = urlparse(START_URL).netloc] *)
Definition ALLOWED_DOMAIN : string :=
  match urlparse START_URL with
  | Some parsed => netloc parsed
  | None => EmptyString
  end.

Definition main (urljoin : string -> string -> exn + string)
           (fetch : string -> fetch_outcome) (fuel : nat)
  : option (list effect * Z) :=
  main_block (crawl ALLOWED_DOMAIN urljoin fetch fuel START_URL).

(** *** An interrupt during the lxml parse (lines 175-178)

    The inner [try] around [BeautifulSoup(response.content, 'lxml')] has
    a bare [except:] clause, which catches [SystemExit] as it catches
    everything.  When the operator's interrupt arrives while line 176
    runs, [signal_handler] saves the result map and raises
    [SystemExit(0)] there; the bare clause catches it, the body is parsed
    with html.parser, and the pass goes on.  Such a pass is the pass for
    a response on which lxml raised, with the handler's save in front. *)

Definition lxml_raising (r : response) : response :=
  mkResponse (status_code r) (reason r) (url r) (content_type_header r)
             None (html_parser_soup r).

(** Line 176 is reached for the response: the status check passes and
    the content type is HTML. *)
Definition reaches_parse (r : response) : bool :=
  match raise_for_status r with
  | Some _ => false
  | None =>
      contains "text/html"
               (lower (match content_type_header r with
                       | Some v => v
                       | None => EmptyString
                       end))
  end.

Definition with_effects_first (pre : list effect) (r : loop_step) : loop_step :=
  match r with
  | Continues s effs => Continues s (pre ++ effs)
  | Escapes e s effs => Escapes e s (pre ++ effs)
  end.

(** The pass for [raw_url] when the interrupt arrives during line 176;
    [None] when the pass does not reach that line.  The handler runs
    before anything is stored for the URL, so it saves the map of [s]. *)
Definition iteration_interrupted_in_parse
           (ALLOWED_DOMAIN : string) (urljoin : string -> string -> exn + string)
           (fetch : string -> fetch_outcome) (raw_url : string) (s : state)
  : option loop_step :=
  match clean_url raw_url with
  | inl _ => None
  | inr current_url =>
      if bool_decide (current_url ∈ visited_urls s) then None
      else
        match fetch current_url with
        | Responds response =>
            if reaches_parse response then
              let '(effs, _) := signal_handler (add_visited current_url s) in
              Some (with_effects_first
                      effs
                      (iteration ALLOWED_DOMAIN urljoin
                                 (fun _ => Responds (lxml_raising response))
                                 raw_url s))
            else None
        | Raises _ | Interrupted => None
        end
  end.

End Crawler.

(* ===================================================================== *)
(** ** Notions in which the properties are stated *)
(* ===================================================================== *)

Module Props.
Import PyStr UrlParse Soup Requests Crawler.

(** Some tag of the document satisfies [p]. *)
Definition contains_element (p : element -> bool) (doc : soup) : Prop :=
  exists e cs, In (Tag e cs) (soup_descendants doc) /\ p e = true.

(** The scope filter as the specification words it: scheme http or
    https, host equal to the allowed host, and a path that does not end
    in a denylisted extension. *)
Definition in_scope_as_specified (allowed_host url : string) : bool :=
  match urlparse url with
  | None => false
  | Some p =>
      mem (scheme p) ["http"; "https"] &&
      String.eqb (netloc p) allowed_host &&
      negb (endswith_any (path p) excluded_extensions)
  end.

(** A tag matches one of the selectors. *)
Definition matches_any (sels : list selector) (e : element) : bool :=
  existsb (fun s => match compile s with
                    | inr p => p e
                    | inl _ => false
                    end) sels.

(** A string, given with the elements above it, lies below no tag
    satisfying [p]. *)
Definition outside (p : element -> bool) (x : list element * string) : bool :=
  negb (existsb p (fst x)).

(** The strings of a document that lie below no tag satisfying [p]. *)
Definition kept_strings (p : element -> bool) (d : soup) : list string :=
  map snd (List.filter (outside p) (soup_text_paths d)).

(** A string made of slashes only. *)
Definition all_slashes (s : string) : bool := forallb_str (Ascii.eqb "/") s.

(** The path of a URL ends in a slash although it is not the root. *)
Definition path_has_trailing_slash (u : string) : bool :=
  match urlparse u with
  | Some p => endswith (path p) "/" && negb (String.eqb (path p) "/")
  | None => false
  end.

Section Steps.
Variable ALLOWED_DOMAIN : string.
Variable urljoin : string -> string -> exn + string.
Variable fetch : string -> fetch_outcome.

(** One pass of the loop takes [s] to [s'] with the effects [effs]. *)
Definition pass (s : state) (effs : list effect) (s' : state) : Prop :=
  exists raw_url rest,
    queue s = raw_url :: rest /\
    iteration ALLOWED_DOMAIN urljoin fetch raw_url (set_queue rest s) = Continues s' effs.

(** [s'] is met at the loop test some passes after [s]. *)
Inductive later (s : state) : state -> Prop :=
| later_now : later s s
| later_pass s1 s2 effs : later s s1 -> pass s1 effs s2 -> later s s2.

(** The states in which [crawl(start_url)] tests its loop condition. *)
Definition reachable (start_url : string) (s : state) : Prop :=
  later (initial start_url) s.

(** The record a pass leaves for a URL. *)
Definition record_after (r : loop_step) (u : string) : option page_record :=
  match r with
  | Continues s _ | Escapes _ s _ => crawl_data s !! u
  end.

Definition state_of (r : loop_step) : state :=
  match r with
  | Continues s _ | Escapes _ s _ => s
  end.

Definition effects_of (r : loop_step) : list effect :=
  match r with
  | Continues _ effs | Escapes _ _ effs => effs
  end.

(** What holds whenever the loop condition is tested: the counter is
    the number of records, every recorded URL is marked visited, and the
    last save was not after the current count. *)
Definition loop_invariant (s : state) : Prop :=
  pages_crawled s = size (crawl_data s) /\
  (forall u, is_Some (crawl_data s !! u) -> u ∈ visited_urls s) /\
  last_save_count s <= pages_crawled s.

(** The per-URL failures and the record each of them leaves. *)
Inductive failure (u : string) : page_record -> Prop :=
| fail_timeout msg :
    fetch u = Raises (Timeout msg) ->
    failure u (Error "Request timed out")
| fail_transport msg :
    fetch u = Raises (RequestException msg) ->
    failure u (Error msg)
| fail_status r :
    fetch u = Responds r ->
    (400 <= status_code r < 600)%Z ->
    failure u (Error (http_error_msg r))
| fail_parse r ct type_name msg :
    fetch u = Responds r ->
    ~ (400 <= status_code r < 600)%Z ->
    content_type_header r = Some ct ->
    contains "text/html" (lower ct) = true ->
    parse r = inl (Exception type_name msg) ->
    failure u (ProcessingError (type_name +:+ ": " +:+ msg))
| fail_extract r ct doc e :
    fetch u = Responds r ->
    ~ (400 <= status_code r < 600)%Z ->
    content_type_header r = Some ct ->
    contains "text/html" (lower ct) = true ->
    parse r = inr doc ->
    extract doc = inl e ->
    failure u (ProcessingError
                 (match e with
                  | Exception type_name msg => type_name +:+ ": " +:+ msg
                  | _ => EmptyString
                  end)).

End Steps.

End Props.

(* ===================================================================== *)
(** ** Example inputs *)
(* ===================================================================== *)

Module Examples.
Import PyStr UrlParse Soup Requests Crawler Props.

Definition el (t : string) : element := mkElement t [] [].

(** A page with the primary landmark, a bare main, the wrapper and a
    body all at once. *)
Definition landmark_page : soup :=
  [Tag (el "html")
     [Tag (el "head") [Tag (el "title") [NavigableString " Welcome "]];
      Tag (el "body")
        [Tag (el "header") [NavigableString "Menu"];
         Tag (mkElement "div" [] ["body-container-wrapper"])
           [Tag (el "main") [NavigableString "Side"];
            Tag (mkElement "main" [("id", "main-content")] [])
              [NavigableString " Hello ";
               SpecialString "generated";
               Tag (el "b") [NavigableString "World"]]]]]].

(** A page whose content sits in the wrapper, with boilerplate inside. *)
Definition wrapper_page : soup :=
  [Tag (el "html")
     [Tag (el "body")
        [Tag (mkElement "div" [] ["body-container-wrapper"])
           [Tag (el "header") [NavigableString "Menu"];
            Tag (el "p") [NavigableString "Offer"];
            Tag (mkElement "div" [] ["announcement_bar"])
              [Tag (el "p") [NavigableString "Sale"]];
            Tag (el "footer") [NavigableString "Legal"]]]]].

(** What html.parser gives for a fragment without html and body tags. *)
Definition bodyless_page : soup :=
  [Tag (el "header") [NavigableString "Menu"];
   Tag (el "p") [NavigableString "Offer"]].

(** A page with a body and none of the preferred containers. *)
Definition plain_page : soup :=
  [Tag (el "html")
     [Tag (el "body")
        [Tag (el "header") [NavigableString "Menu"];
         Tag (el "p") [NavigableString "Offer"]]]].

(** A page with one link. *)
Definition page_linking (href : string) : soup :=
  [Tag (el "html")
     [Tag (el "body")
        [Tag (mkElement "main" [("id", "main-content")] [])
           [NavigableString "Hello World";
            Tag (mkElement "a" [("href", href)] []) [NavigableString "more"]]]]].

Definition html_response (code : Z) (doc : soup) : response :=
  mkResponse code "OK" "https://www.workstream.us/" (Some "text/html; charset=UTF-8")
             (Some doc) (inr doc).

(** A resolver for links that are absolute already: it parses the link,
    as urljoin does, and gives it back. *)
Definition absolute_only (base href : string) : exn + string :=
  match urlparse href with
  | None => inl (Exception "ValueError" "Invalid IPv6 URL")
  | Some _ => inr href
  end.

Definition state_at (n : nat) (q : list string) : state := mkState q ∅ n ∅ 0.

(** Worlds: every request times out; every request is interrupted; the
    seed answers with a given status and page, anything else times out. *)
Definition all_time_out (u : string) : fetch_outcome := Raises (Timeout "").


Definition seed_answers (code : Z) (doc : soup) (u : string) : fetch_outcome :=
  if String.eqb u START_URL then Responds (html_response code doc)
  else Raises (Timeout "").

Definition ABOUT : string := "https://www.workstream.us/about".

(** The first and the second pass of a crawl whose seed links to one
    more page. *)
Definition linked_first_pass : loop_step :=
  iteration ALLOWED_DOMAIN absolute_only
            (seed_answers 200 (page_linking "https://www.workstream.us/about/"))
            START_URL (state_at 0 []).

Definition linked_second_pass : loop_step :=
  iteration ALLOWED_DOMAIN absolute_only
            (seed_answers 200 (page_linking "https://www.workstream.us/about/"))
            ABOUT (set_queue [] (state_of linked_first_pass)).

(** The 200th page, answered with the landmark page. *)
Definition two_hundredth_pass : loop_step :=
  iteration ALLOWED_DOMAIN absolute_only (seed_answers 200 landmark_page)
            START_URL (state_at 199 []).

End Examples.

(* ===================================================================== *)
(** ** [save_data] (lines 96-110)

    The function opens the output file for writing and dumps the map
    into it inside a [try] statement with two clauses, [except Exception]
    first and [except MemoryError] second; each only prints.  [write] is
    what the [with] block does: [None] when it completes, the exception
    it raises otherwise.  The result is what the function printed, or
    the exception it lets through. *)
(* ===================================================================== *)

Module Persist.

Inductive save_log :=
| LogSaved                      (* "Successfully saved data to ..." *)
| LogError (msg : string)       (* "Error saving data to ...: msg" *)
| LogMemoryError.               (* "MemoryError: Failed to save data ..." *)

(** [isinstance(e, MemoryError)]; MemoryError is a subclass of
    Exception. *)
Definition is_MemoryError (e : exn) : bool :=
  match e with
  | Exception type_name _ => String.eqb type_name "MemoryError"
  | _ => false
  end.

(** [str(e)] *)
Definition str (e : exn) : string :=
  match e with
  | Timeout msg | RequestException msg | Exception _ msg => msg
  | KeyboardInterrupt => EmptyString
  | SystemExit c => Requests.decimal c
  end.

Definition save_data (write : option exn) : exn + save_log :=
  match write with
  | None => inr LogSaved
  | Some e =>
      if is_Exception e then inr (LogError (str e))
      else if is_MemoryError e then inr LogMemoryError
      else inl e
  end.

End Persist.

(* ===================================================================== *)
(** ** Notions for the properties of the frontier and of whole runs *)
(* ===================================================================== *)

Module Runs.
Import PyStr UrlParse Soup Requests Crawler Props.

(** The pending URLs are pairwise different, and each is the seed or
    has passed the scope filter. *)
Definition frontier_invariant (ALLOWED_DOMAIN start_url : string) (s : state) : Prop :=
  NoDup (queue s) /\
  Forall (fun u => u = start_url \/ is_valid_url ALLOWED_DOMAIN u = true) (queue s).

(** The visited URLs are the recorded ones, and the count at the last
    save is a multiple of the interval. *)
Definition store_invariant (s : state) : Prop :=
  visited_urls s = dom (crawl_data s) /\
  last_save_count s mod SAVE_EVERY_N_PAGES = 0.

(** A world without interrupts in which whatever is raised is an
    [Exception]. *)
Definition well_behaved (urljoin : string -> string -> exn + string)
           (fetch : string -> fetch_outcome) : Prop :=
  (forall base href e, urljoin base href = inl e -> is_Exception e = true) /\
  (forall u,
      match fetch u with
      | Raises e => is_Exception e = true
      | Interrupted => False
      | Responds r => forall e, html_parser_soup r = inl e -> is_Exception e = true
      end).

(** What a walk over links may append to the queue [q]: URLs that
    passed the scope filter, are not visited, are not in [q], and are
    pairwise different. *)
Definition appended (ALLOWED_DOMAIN : string) (visited : gset string)
           (q added : list string) : Prop :=
  Forall (fun u => is_valid_url ALLOWED_DOMAIN u = true /\
                   (u ∉ visited) /\ (u ∉ q)) added /\
  NoDup added.

Definition saved_map (e : effect) : gmap string page_record :=
  match e with Saved data _ => data end.

Definition result_state (r : crawl_result) : state :=
  match r with
  | Returned s _ | Raised _ s _ | OutOfFuel s _ => s
  end.

Definition result_effects (r : crawl_result) : list effect :=
  match r with
  | Returned _ effs | Raised _ _ effs | OutOfFuel _ effs => effs
  end.

(** A page that links to two in-scope pages, one of them twice, to
    itself, to another host and to a file. *)
Definition busy_page : soup :=
  [Tag (Examples.el "html")
     [Tag (Examples.el "body")
        [Tag (mkElement "main" [("id", "main-content")] [])
           [Tag (mkElement "a" [("href", "https://www.workstream.us/pricing/")] []) [];
            Tag (mkElement "a" [("href", "https://www.workstream.us/")] []) [];
            Tag (mkElement "a" [("href", "https://other.example/")] []) [];
            Tag (mkElement "a" [("href", "https://www.workstream.us/pricing#plans")] []) [];
            Tag (mkElement "a" [("href", "https://www.workstream.us/logo.png")] []) [];
            Tag (mkElement "a" [("href", "")] []) [];
            Tag (mkElement "a" [("href", " https://www.workstream.us/blog ")] []) []]]]].

Definition busy_pass : loop_step :=
  iteration ALLOWED_DOMAIN Examples.absolute_only
            (Examples.seed_answers 200 busy_page) START_URL (Examples.state_at 0 []).

(** A response that is not HTML, and one without a content type. *)
Definition pdf_response : response :=
  mkResponse 200 "OK" "https://www.workstream.us/" (Some "Application/PDF")
             None (inr []).

Definition untyped_response : response :=
  mkResponse 200 "OK" "https://www.workstream.us/" None None (inr []).

(** The seed answers with a page that links to one more page; the
    request for that page is interrupted. *)
Definition interrupted_after_seed (u : string) : fetch_outcome :=
  if String.eqb u START_URL
  then Responds (Examples.html_response
                   200 (Examples.page_linking "https://www.workstream.us/about/"))
  else Interrupted.

Definition seed_pass_before_interrupt : loop_step :=
  iteration ALLOWED_DOMAIN Examples.absolute_only interrupted_after_seed
            START_URL (Examples.state_at 0 []).

(** The seed answers with something that is not HTML. *)
Definition seed_responds (r : response) (u : string) : fetch_outcome :=
  if String.eqb u START_URL then Responds r else Raises (Timeout "").

Definition first_char (s : string) : option ascii :=
  match s with
  | EmptyString => None
  | String a _ => Some a
  end.

Fixpoint last_char (s : string) : option ascii :=
  match s with
  | EmptyString => None
  | String a EmptyString => Some a
  | String _ r => last_char r
  end.

(** No white space at either end. *)
Definition trimmed (s : string) : Prop :=
  (forall a, first_char s = Some a -> is_space a = false) /\
  (forall a, last_char s = Some a -> is_space a = false).

(** The no-break space, U+00A0. *)
Definition NBSP : ascii := ascii_of_nat 160.

(** A page whose title is padded with a no-break space, blanks and a
    line end, as a template leaves them. *)
Definition padded_title : string :=
  String NBSP " Pricing - Workstream " +:+ String (ascii_of_nat 10) EmptyString.

Definition titled_page : soup :=
  [Tag (Examples.el "html")
     [Tag (Examples.el "head")
        [Tag (Examples.el "title") [NavigableString padded_title]];
      Tag (Examples.el "body")
        [Tag (mkElement "main" [("id", "main-content")] [])
           [NavigableString "Plans"]]]].

Definition titled_pass : loop_step :=
  iteration ALLOWED_DOMAIN Examples.absolute_only
            (Examples.seed_answers 200 titled_page) START_URL (Examples.state_at 0 []).

(** The state [n] passes after [s], when each of them returns to the
    loop test. *)
Fixpoint run (ALLOWED_DOMAIN : string) (urljoin : string -> string -> exn + string)
         (fetch : string -> fetch_outcome) (n : nat) (s : state) : option state :=
  match n with
  | O => Some s
  | S n' =>
      match queue s with
      | [] => None
      | raw_url :: rest =>
          match iteration ALLOWED_DOMAIN urljoin fetch raw_url (set_queue rest s) with
          | Continues s' _ => run ALLOWED_DOMAIN urljoin fetch n' s'
          | Escapes _ _ _ => None
          end
      end
  end.

Definition is_continues (r : loop_step) : bool :=
  match r with
  | Continues _ _ => true
  | Escapes _ _ _ => false
  end.

(** A site that is one long chain.  Its pages are named by the words
    over a..z, counted with the first letter running fastest; the page at
    a URL links to the page with the next name. *)
Fixpoint next_name (name : string) : string :=
  match name with
  | EmptyString => "a"
  | String c r =>
      if Ascii.eqb c "z" then String "a" (next_name r)
      else String (ascii_of_nat (S (nat_of_ascii c))) r
  end.

Definition chain (u : string) : fetch_outcome :=
  Responds
    (Examples.html_response
       200
       (Examples.page_linking
          (START_URL +:+ next_name (drop (String.length START_URL) u)))).

(** The crawl of the chain after [n] pages, and the pass for the next
    page. *)
Definition chain_state (n : nat) : state :=
  default (initial START_URL)
          (run ALLOWED_DOMAIN Examples.absolute_only chain n (initial START_URL)).

Definition chain_pass (n : nat) : loop_step :=
  iteration ALLOWED_DOMAIN Examples.absolute_only chain
            (hd EmptyString (queue (chain_state n)))
            (set_queue (tl (queue (chain_state n))) (chain_state n)).

(** The seed's pass when the interrupt arrives during the lxml parse of
    the landmark page. *)
Definition swallowed_interrupt_pass : option loop_step :=
  iteration_interrupted_in_parse
    ALLOWED_DOMAIN Examples.absolute_only
    (Examples.seed_answers 200 Examples.landmark_page) START_URL (Examples.state_at 0 []).

(** A run in which every request times out. *)
Definition timeout_run : option (list effect * Z) :=
  main Examples.absolute_only Examples.all_time_out 5.

End Runs.

Import PyStr UrlParse Soup Requests Crawler Props Examples.

(* ===================================================================== *)
(** ** Facts about the string functions *)
(* ===================================================================== *)

Lemma lower_char_hash (a : ascii) :
  Ascii.eqb (lower_char a) "#" = Ascii.eqb a "#".
Proof. destruct a as [[] [] [] [] [] [] [] []]; reflexivity. Qed.

Lemma contains_char_lower_hash (s : string) :
  contains_char "#" (lower s) = contains_char "#" s.
Proof.
  induction s as [|a s IH]; simpl; [reflexivity|].
  now rewrite lower_char_hash, IH.
Qed.

Lemma before_without (c : ascii) (s : string) :
  contains_char c s = false -> before c s = s.
Proof.
  unfold before. induction s as [|a s IH]; simpl; [reflexivity|].
  intros H. apply orb_false_iff in H as [Ha Hs]. rewrite Ha.
  specialize (IH Hs). destruct (partition c s); simpl in *. now rewrite IH.
Qed.

Lemma partition_fst_contains (c d : ascii) (s : string) :
  contains_char c (fst (partition d s)) = true -> contains_char c s = true.
Proof.
  induction s as [|a s IH]; simpl; [discriminate|].
  destruct (Ascii.eqb a d); simpl; [discriminate|].
  destruct (partition d s) as [h t]; simpl in *.
  intros H. apply orb_true_iff in H as [H|H]; apply orb_true_iff; auto.
Qed.

Lemma before_keeps_absent (c d : ascii) (s : string) :
  contains_char c s = false -> contains_char c (before d s) = false.
Proof.
  intros H. destruct (contains_char c (before d s)) eqn:E; [|reflexivity].
  apply partition_fst_contains in E. congruence.
Qed.

Lemma mem_http_https (s : string) :
  mem s ["http"; "https"] = true <-> s = "http" \/ s = "https".
Proof.
  unfold mem; cbn [existsb]. rewrite orb_false_r, orb_true_iff, !String.eqb_eq. tauto.
Qed.

(* ===================================================================== *)
(** ** The frontier *)
(* ===================================================================== *)

(** C4.  Enqueueing a URL twice leaves the frontier (the queue together
    with the untouched seen set) as enqueueing it once does; a URL that is
    in the seen set or already waits in the queue is not appended. *)
Theorem enqueue_idempotent (ALLOWED_DOMAIN u : string) (visited : gset string)
        (q : list string) :
  enqueue ALLOWED_DOMAIN u visited (enqueue ALLOWED_DOMAIN u visited q)
  = enqueue ALLOWED_DOMAIN u visited q
  /\ (u ∈ visited \/ u ∈ q -> enqueue ALLOWED_DOMAIN u visited q = q).
Proof.
  split.
  - unfold enqueue.
    destruct (is_valid_url ALLOWED_DOMAIN u) eqn:Hv; simpl; [|reflexivity].
    destruct (bool_decide (u ∉ visited)) eqn:Hs; simpl; [|reflexivity].
    destruct (bool_decide (u ∉ q)) eqn:Hq; simpl; [|now rewrite Hq].
    rewrite bool_decide_eq_false_2; [reflexivity|].
    intros Hn. apply Hn. apply elem_of_app. right. apply list_elem_of_singleton.
    reflexivity.
  - intros [H|H]; unfold enqueue.
    + rewrite (bool_decide_eq_false_2 (u ∉ visited)); [|tauto].
      now rewrite andb_false_r.
    + rewrite (bool_decide_eq_false_2 (u ∉ q)); [|tauto].
      now rewrite andb_false_r.
Qed.

Lemma enqueue_idempotent_witness :
  enqueue ALLOWED_DOMAIN "https://www.workstream.us/about" ∅ ["https://www.workstream.us/about"]
  = ["https://www.workstream.us/about"].
Proof.
  apply (enqueue_idempotent ALLOWED_DOMAIN "https://www.workstream.us/about" ∅
                            ["https://www.workstream.us/about"]).
  right. apply list_elem_of_singleton. reflexivity.
Defined.

(* ===================================================================== *)
(** ** The scope filter *)
(* ===================================================================== *)

(** C7, as stated, fails: a URL with a fragment satisfies the three
    stated conditions and is rejected. *)
Lemma scope_filter_rejects_fragment :
  in_scope_as_specified "example.com" "https://example.com/pricing#top" = true /\
  is_valid_url "example.com" "https://example.com/pricing#top" = false.
Proof. split; vm_compute; reflexivity. Qed.

(** C7, amended.  [is_valid_url] answers true exactly when the URL
    parses, its scheme is http or https, its host is the allowed host, it
    contains no number sign, and its lower-cased text before the first
    question mark does not end in a denylisted extension; the four
    examples of the specification come out as stated. *)
Theorem scope_filter_characterised :
  (forall ALLOWED_DOMAIN u,
      is_valid_url ALLOWED_DOMAIN u = true <->
      exists p, urlparse u = Some p /\
                (scheme p = "http" \/ scheme p = "https") /\
                netloc p = ALLOWED_DOMAIN /\
                contains_char "#" u = false /\
                endswith_any (before "?" (lower u)) excluded_extensions = false)
  /\ is_valid_url "example.com" "https://example.com/pricing" = true
  /\ is_valid_url "example.com" "https://sub.example.com/pricing" = false
  /\ is_valid_url "example.com" "ftp://example.com/x" = false
  /\ is_valid_url "example.com" "https://example.com/report.pdf" = false.
Proof.
  split; [|repeat split; vm_compute; reflexivity].
  intros A u. unfold is_valid_url. split.
  - destruct (urlparse u) as [p|] eqn:Hp; [|discriminate].
    destruct (mem (scheme p) ["http"; "https"]) eqn:Hs; cbn [negb andb];
      [|discriminate].
    destruct (String.eqb (netloc p) A) eqn:Hn; cbn [negb andb]; [|discriminate].
    destruct (contains_char "#" u) eqn:Hh; cbn [negb andb]; [discriminate|].
    rewrite (before_without "#")
      by (apply before_keeps_absent; now rewrite contains_char_lower_hash).
    destruct (endswith_any (before "?" (lower u)) excluded_extensions) eqn:He;
      [discriminate|]. intros _.
    exists p. repeat split; auto.
    + now apply mem_http_https.
    + now apply String.eqb_eq.
  - intros (p & Hp & Hs & Hn & Hh & He). rewrite Hp.
    apply mem_http_https in Hs. rewrite Hs. apply String.eqb_eq in Hn. rewrite Hn.
    rewrite Hh; cbn [negb andb].
    rewrite (before_without "#")
      by (apply before_keeps_absent; now rewrite contains_char_lower_hash).
    now rewrite He.
Qed.

(* ===================================================================== *)
(** ** The extractor *)
(* ===================================================================== *)

Lemma find_contains (p : element -> bool) (doc : soup) :
  contains_element p doc <-> exists area, find p doc = Some area.
Proof.
  unfold contains_element, find. split.
  - intros (e & cs & Hin & Hp).
    destruct (List.find (on_element p) (soup_descendants doc)) as [n|] eqn:F; eauto.
    pose proof (find_none _ _ F _ Hin) as H. simpl in H. congruence.
  - intros [area F]. apply find_some in F as [Hin Hp].
    destruct area as [s|s|e cs]; simpl in Hp; try discriminate. eauto.
Qed.

Lemma find_absent (p : element -> bool) (doc : soup) :
  ~ contains_element p doc -> find p doc = None.
Proof.
  intros H. destruct (find p doc) as [n|] eqn:F; [|reflexivity].
  exfalso. apply H. apply find_contains. eauto.
Qed.

(** C5.  The strategies are tried in a fixed order and the first that
    finds its container decides: a document with the primary landmark is
    extracted by the primary landmark strategy whatever else it contains;
    without it, a bare main tag decides; without both, the wrapper. *)
Theorem extraction_priority (doc : soup) :
  (contains_element is_main_content doc ->
   exists area, find is_main_content doc = Some area /\
                extract doc = inr (get_text area, METHOD_MAIN_ID))
  /\ (~ contains_element is_main_content doc ->
      contains_element (has_name "main") doc ->
      exists text, extract doc = inr (text, METHOD_MAIN))
  /\ (~ contains_element is_main_content doc ->
      ~ contains_element (has_name "main") doc ->
      contains_element is_wrapper doc ->
      exists text, extract doc = inr (text, METHOD_WRAPPER)).
Proof.
  unfold extract. repeat split.
  - intros H. apply find_contains in H as [area F]. exists area. now rewrite F.
  - intros H1 H2. rewrite (find_absent _ _ H1).
    apply find_contains in H2 as [area F]. rewrite F. eauto.
  - intros H1 H2 H3. rewrite (find_absent _ _ H1), (find_absent _ _ H2).
    apply find_contains in H3 as [area F]. rewrite F. simpl. eauto.
Qed.

Lemma extraction_priority_witness :
  exists area, find is_main_content landmark_page = Some area /\
               extract landmark_page = inr (get_text area, METHOD_MAIN_ID).
Proof.
  apply (extraction_priority landmark_page).
  apply find_contains. eexists. vm_compute. reflexivity.
Defined.

(** The landmark page also has a bare main tag, the wrapper and a body. *)
Lemma landmark_page_has_all_containers :
  contains_element (has_name "main") landmark_page /\
  contains_element is_wrapper landmark_page /\
  contains_element (has_name "body") landmark_page /\
  extract landmark_page = inr ("Hello World", METHOD_MAIN_ID).
Proof.
  repeat split; try (apply find_contains; eexists; vm_compute; reflexivity).
Qed.

(** *** Removal of boilerplate *)

Section Pruning.
Variable p : element -> bool.

Lemma paths_below_match_dropped (n : node) :
  forall above, existsb p above = true ->
                List.filter (outside p) (text_paths above n) = [].
Proof.
  induction n as [s|s|e cs IH] using node_induction; intros above Ha; simpl.
  - unfold outside; simpl. now rewrite Ha.
  - reflexivity.
  - induction IH as [|c r Hc _ IHr]; simpl; [reflexivity|].
    rewrite List.filter_app, IHr, app_nil_r.
    apply Hc. simpl. rewrite Ha. apply orb_true_r.
Qed.

Lemma paths_of_matching_tag_dropped (n : node) (above : list element) :
  on_element p n = true -> List.filter (outside p) (text_paths above n) = [].
Proof.
  destruct n as [s|s|e cs]; simpl; try discriminate. intros He.
  induction cs as [|c r IHr]; simpl; [reflexivity|].
  rewrite List.filter_app, IHr, app_nil_r.
  apply paths_below_match_dropped. simpl. now rewrite He.
Qed.

Lemma text_paths_prune (n : node) :
  forall above, existsb p above = false -> on_element p n = false ->
                text_paths above (prune p n)
                = List.filter (outside p) (text_paths above n).
Proof.
  induction n as [s|s|e cs IH] using node_induction; intros above Ha Hn; simpl.
  - unfold outside; simpl. now rewrite Ha.
  - reflexivity.
  - simpl in Hn.
    assert (Hab : existsb p (e :: above) = false) by (simpl; now rewrite Hn, Ha).
    induction IH as [|c r Hc _ IHr]; simpl; [reflexivity|].
    rewrite flat_map_app, List.filter_app, <- IHr.
    destruct (on_element p c) eqn:Hm; simpl.
    + now rewrite paths_of_matching_tag_dropped.
    + rewrite app_nil_r. f_equal. now apply Hc.
Qed.

Lemma soup_text_paths_prune (d : soup) :
  soup_text_paths (soup_prune p d) = List.filter (outside p) (soup_text_paths d).
Proof.
  unfold soup_text_paths, soup_prune.
  induction d as [|c r IHr]; simpl; [reflexivity|].
  rewrite flat_map_app, List.filter_app, <- IHr.
  destruct (on_element p c) eqn:Hm; simpl.
  - now rewrite paths_of_matching_tag_dropped.
  - rewrite app_nil_r. f_equal. now apply text_paths_prune.
Qed.

End Pruning.

Lemma strings_of_paths (n : node) :
  forall above, all_strings n = map snd (text_paths above n).
Proof.
  induction n as [s|s|e cs IH] using node_induction; intros above; simpl;
    try reflexivity.
  induction IH as [|c r Hc _ IHr]; simpl; [reflexivity|].
  now rewrite map_app, <- IHr, <- Hc.
Qed.

Lemma soup_strings_of_paths (d : soup) :
  soup_strings d = map snd (soup_text_paths d).
Proof.
  unfold soup_strings, soup_text_paths.
  induction d as [|c r IHr]; simpl; [reflexivity|].
  now rewrite map_app, <- IHr, <- strings_of_paths.
Qed.

Lemma filter_twice {A} (f g : A -> bool) (l : list A) :
  List.filter g (List.filter f l) = List.filter (fun x => f x && g x) l.
Proof.
  induction l as [|a l IH]; simpl; [reflexivity|].
  destruct (f a); simpl; [destruct (g a); simpl; now rewrite IH | exact IH].
Qed.

Lemma existsb_either {A} (f g : A -> bool) (l : list A) :
  existsb (fun x => f x || g x) l = existsb f l || existsb g l.
Proof.
  induction l as [|a l IH]; simpl; [reflexivity|].
  rewrite IH. destruct (f a), (g a), (existsb f l); reflexivity.
Qed.

Lemma matches_none (l : list element) : existsb (matches_any []) l = false.
Proof. induction l as [|a l IH]; simpl; [reflexivity|exact IH]. Qed.

(** After the removal loop the strings left are those that lay below no
    tag matched by any of the selectors. *)
Lemma decompose_selected_paths (sels : list selector) :
  forall d d', decompose_selected sels d = inr d' ->
               soup_text_paths d'
               = List.filter (outside (matches_any sels)) (soup_text_paths d).
Proof.
  induction sels as [|s rest IH]; intros d d' H; simpl in H.
  - injection H as <-.
    induction (soup_text_paths d) as [|x l IHl]; simpl; [reflexivity|].
    unfold outside at 1. rewrite matches_none. simpl. now rewrite <- IHl.
  - destruct (compile s) as [e|q] eqn:Hc; [discriminate|].
    rewrite (IH _ _ H), soup_text_paths_prune, filter_twice.
    apply List.filter_ext. intros [above str]. unfold outside, matches_any; simpl.
    rewrite Hc. rewrite existsb_either. now rewrite negb_orb.
Qed.

Lemma decompose_selected_text (sels : list selector) (d d' : soup) :
  decompose_selected sels d = inr d' ->
  soup_get_text d' = joined_text (kept_strings (matches_any sels) d).
Proof.
  intros H. unfold soup_get_text, kept_strings.
  now rewrite soup_strings_of_paths, (decompose_selected_paths _ _ _ H).
Qed.

(** In the fallback on a document with a body, the removal loop meets a
    text that is no selector and raises. *)
Lemma body_fallback_raises (doc : soup) (body : node) :
  find is_main_content doc = None ->
  find (has_name "main") doc = None ->
  find is_wrapper doc = None ->
  find (has_name "body") doc = Some body ->
  extract doc = inl (Exception "SelectorSyntaxError" "#hs-web-interactives-.*").
Proof.
  intros H1 H2 H3 H4. unfold extract. rewrite H1, H2, H3, H4. reflexivity.
Qed.

Lemma plain_page_not_extracted :
  extract plain_page = inl (Exception "SelectorSyntaxError" "#hs-web-interactives-.*").
Proof. now apply (body_fallback_raises plain_page (Tag (el "body") [Tag (el "header") [NavigableString "Menu"]; Tag (el "p") [NavigableString "Offer"]])). Qed.

(** C6, as stated, fails: a document without a body is handled by the
    fallback, and its text keeps the text of the header. *)
Lemma fallback_keeps_boilerplate :
  extract bodyless_page = inr ("Menu Offer", METHOD_NO_BODY) /\
  In ([el "header"], "Menu") (soup_text_paths bodyless_page) /\
  matches_any body_selectors (el "header") = true /\
  joined_text (kept_strings (matches_any body_selectors) bodyless_page) = "Offer".
Proof.
  repeat split; try (vm_compute; reflexivity). vm_compute. left. reflexivity.
Qed.

(** C6, amended.  The text of the primary landmark and of a bare main
    tag is that of the located subtree, nothing removed; the text of the
    wrapper strategy is made of the strings of the wrapper that lie below
    no tag matching its boilerplate selectors; a document without a body
    gives the text of the whole document, nothing removed. *)
Theorem extraction_text_by_strategy (doc : soup) :
  (forall area,
      find is_main_content doc = Some area ->
      extract doc = inr (get_text area, METHOD_MAIN_ID))
  /\ (forall area,
         find is_main_content doc = None ->
         find (has_name "main") doc = Some area ->
         extract doc = inr (get_text area, METHOD_MAIN))
  /\ (forall area,
         find is_main_content doc = None ->
         find (has_name "main") doc = None ->
         find is_wrapper doc = Some area ->
         extract doc
         = inr (joined_text (kept_strings (matches_any wrapper_selectors) [area]),
                METHOD_WRAPPER))
  /\ (find is_main_content doc = None ->
      find (has_name "main") doc = None ->
      find is_wrapper doc = None ->
      find (has_name "body") doc = None ->
      extract doc = inr (soup_get_text doc, METHOD_NO_BODY)).
Proof.
  unfold extract. repeat split.
  - intros area H. now rewrite H.
  - intros area H1 H2. now rewrite H1, H2.
  - intros area H1 H2 H3. rewrite H1, H2, H3.
    destruct (decompose_selected wrapper_selectors [area]) as [e|d'] eqn:Hd.
    + discriminate Hd.
    + now rewrite (decompose_selected_text _ _ _ Hd).
  - intros H1 H2 H3 H4. now rewrite H1, H2, H3, H4.
Qed.

Lemma extraction_text_by_strategy_witness :
  extract wrapper_page = inr ("Offer", METHOD_WRAPPER).
Proof.
  pose proof (extraction_text_by_strategy wrapper_page) as (_ & _ & H & _).
  exact (H _ eq_refl eq_refl eq_refl).
Defined.

(* ===================================================================== *)
(** ** Normalization *)
(* ===================================================================== *)

Lemma rstrip_by_decomposes (p : ascii -> bool) (s : string) :
  exists tail, s = rstrip_by p s +:+ tail /\ forallb_str p tail = true.
Proof.
  induction s as [|a r IH]; [exists EmptyString; now split|].
  cbn [rstrip_by]. destruct IH as (tail & E & Ht).
  destruct (rstrip_by p r) as [|b r'].
  - simpl in E. destruct (p a) eqn:Ha.
    + exists (String a r). split; [reflexivity|]. simpl. rewrite Ha. now rewrite E.
    + exists tail. split; [|exact Ht]. simpl. now f_equal.
  - exists tail. split; [|exact Ht].
    change (String a r = String a (String b r' +:+ tail)). now rewrite <- E.
Qed.

Lemma append_empty (s : string) : s = s +:+ EmptyString.
Proof.
  induction s as [|a r IH]; [reflexivity|].
  change (String a r = String a (r +:+ EmptyString)). now f_equal.
Qed.

Lemma append_assoc (a b c : string) : (a +:+ b) +:+ c = a +:+ (b +:+ c).
Proof.
  induction a as [|x a IH]; [reflexivity|].
  change (String x ((a +:+ b) +:+ c) = String x (a +:+ (b +:+ c))). now f_equal.
Qed.

(** The rebuilt URL is the URL rebuilt without the fragment, followed by
    the number sign and the fragment when there is one. *)
Lemma geturl_fragment_last (p : ParseResult) :
  geturl p = geturl (replace_fragment_empty p) +:+
             (if is_empty (fragment p) then EmptyString else "#" +:+ fragment p).
Proof.
  unfold geturl, replace_fragment_empty.
  cbn [scheme netloc path params query fragment].
  change (is_empty EmptyString) with true. cbv iota.
  destruct (is_empty (fragment p)); [apply append_empty|reflexivity].
Qed.

Lemma is_empty_false (s : string) : is_empty s = false <-> s <> EmptyString.
Proof. destruct s; simpl; split; congruence. Qed.

Lemma rstrip_slashes (s : string) :
  exists tail, s = rstrip "/" s +:+ tail /\ all_slashes tail = true.
Proof.
  destruct (rstrip_by_decomposes (Ascii.eqb "/") s) as (tail & E & Ht).
  exists tail. split; [exact E|exact Ht].
Qed.

Lemma rstrip_no_trailing (c : ascii) (s : string) :
  endswith (rstrip c s) (String c EmptyString) = false.
Proof.
  unfold rstrip. induction s as [|a r IH]; [reflexivity|].
  cbn [rstrip_by]. destruct (rstrip_by (Ascii.eqb c) r) as [|b r'] eqn:Hr.
  - destruct (Ascii.eqb c a) eqn:Hca; [reflexivity|].
    cbn. rewrite Ascii.eqb_sym, Hca. reflexivity.
  - change (endswith (String a (String b r')) (String c EmptyString))
      with (String.eqb (String a (String b r')) (String c EmptyString)
            || endswith (String b r') (String c EmptyString)).
    rewrite IH, orb_false_r. cbn. now destruct (Ascii.eqb a c).
Qed.

Lemma contains_char_app (c : ascii) (a b : string) :
  contains_char c (a +:+ b) = contains_char c a || contains_char c b.
Proof.
  induction a as [|x a IH]; simpl; [reflexivity|]. now rewrite IH, orb_assoc.
Qed.

Lemma partition_fst_free (c : ascii) (s : string) :
  contains_char c (fst (partition c s)) = false.
Proof.
  induction s as [|a s IH]; simpl; [reflexivity|].
  destruct (Ascii.eqb a c) eqn:E; simpl; [reflexivity|].
  destruct (partition c s); simpl in *. now rewrite E, IH.
Qed.

Lemma partition_snd_contains (c d : ascii) (s h t : string) :
  partition d s = (h, Some t) ->
  contains_char c t = true -> contains_char c s = true.
Proof.
  revert h. induction s as [|a s IH]; simpl; intros h; [discriminate|].
  destruct (Ascii.eqb a d).
  - intros [= <- <-] H. rewrite H. apply orb_true_r.
  - destruct (partition d s) as [h' t'] eqn:E. intros [= <- ->] H.
    rewrite (IH _ eq_refl H). apply orb_true_r.
Qed.

Lemma split_at_free (c d : ascii) (s h t : string) :
  contains_char c s = false -> split_at d s = (h, t) ->
  contains_char c h = false /\ contains_char c t = false.
Proof.
  unfold split_at. intros Hs H.
  destruct (partition d s) as [h' [t'|]] eqn:E; injection H as <- <-; split.
  - pose proof (before_keeps_absent c d s Hs) as K. unfold before in K.
    now rewrite E in K.
  - destruct (contains_char c t') eqn:K; [|reflexivity].
    rewrite (partition_snd_contains _ _ _ _ _ E K) in Hs. discriminate.
  - pose proof (before_keeps_absent c d s Hs) as K. unfold before in K.
    now rewrite E in K.
  - reflexivity.
Qed.

Lemma splitparams_free (c : ascii) (s : string) :
  forall h t, contains_char c s = false -> splitparams s = (h, t) ->
              contains_char c h = false /\ contains_char c t = false.
Proof.
  induction s as [|a s IH]; intros h t Hs H; cbn [splitparams] in H.
  - injection H as <- <-. now split.
  - destruct (contains_char "/" s).
    + destruct (splitparams s) as [h' t'] eqn:E. injection H as <- <-.
      simpl in Hs. apply orb_false_iff in Hs as [Ha Hs].
      destruct (IH _ _ Hs eq_refl) as [K1 K2]. simpl. now rewrite Ha, K1, K2.
    + now apply (split_at_free c ";" (String a s)).
Qed.

Lemma span_until_free (c : ascii) (stop : ascii -> bool) (s : string) :
  stop c = true -> contains_char c (fst (span_until stop s)) = false.
Proof.
  intros Hc. induction s as [|a s IH]; simpl; [reflexivity|].
  destruct (stop a) eqn:Ha; simpl; [reflexivity|].
  destruct (span_until stop s); simpl in *. rewrite IH, orb_false_r.
  destruct (Ascii.eqb a c) eqn:E; [|reflexivity].
  apply Ascii.eqb_eq in E. congruence.
Qed.

Lemma scheme_chars_free (s : string) :
  forallb_str scheme_char s = true -> contains_char "#" s = false.
Proof.
  induction s as [|a s IH]; simpl; [reflexivity|].
  intros H. apply andb_true_iff in H as [Ha Hs]. rewrite (IH Hs), orb_false_r.
  destruct (Ascii.eqb a "#") eqn:E; [|reflexivity].
  apply Ascii.eqb_eq in E. subst a. discriminate Ha.
Qed.

Lemma split_scheme_free (url sch rest : string) :
  split_scheme url = (sch, rest) -> contains_char "#" sch = false.
Proof.
  unfold split_scheme. destruct (partition ":" url) as [[|c0 pre] [r|]];
    try (intros [= <- <-]; reflexivity).
  destruct (is_alpha c0 && forallb_str scheme_char (String c0 pre)) eqn:E;
    intros [= <- <-]; [|reflexivity].
  apply andb_true_iff in E as [_ E].
  transitivity (contains_char "#" (String c0 pre));
    [exact (contains_char_lower_hash (String c0 pre)) | now apply scheme_chars_free].
Qed.

(** No component of a parsed URL other than the fragment holds a number
    sign. *)
Lemma urlparse_components_free (u : string) (p : ParseResult) :
  urlparse u = Some p ->
  contains_char "#" (scheme p) = false /\ contains_char "#" (netloc p) = false /\
  contains_char "#" (path p) = false /\ contains_char "#" (params p) = false /\
  contains_char "#" (query p) = false.
Proof.
  unfold urlparse.
  destruct (split_scheme _) as [sch url1] eqn:Hsch.
  assert (Hnl : forall nl url2,
             (if startswith url1 "//" then splitnetloc url1 else (EmptyString, url1))
             = (nl, url2) -> contains_char "#" nl = false).
  { intros nl url2. destruct (startswith url1 "//").
    - unfold splitnetloc. intros H.
      pose proof (span_until_free "#" netloc_stop (drop 2 url1) eq_refl) as K.
      now rewrite H in K.
    - now intros [= <- <-]. }
  destruct (if startswith url1 "//" then _ else _) as [nl url2] eqn:Hn.
  specialize (Hnl _ _ eq_refl).
  destruct (brackets_unbalanced nl); [discriminate|].
  destruct (split_at "#" url2) as [url3 frag] eqn:Hf.
  assert (H3 : contains_char "#" url3 = false).
  { unfold split_at in Hf. pose proof (partition_fst_free "#" url2) as K.
    destruct (partition "#" url2) as [h [t|]]; injection Hf as <- <-; exact K. }
  destruct (split_at "?" url3) as [url4 qry] eqn:Hq.
  destruct (split_at_free "#" "?" _ _ _ H3 Hq) as [H4 Hqf].
  assert (Hp : forall url5 prm,
             (if mem sch uses_params && contains_char ";" url4
              then splitparams url4 else (url4, EmptyString)) = (url5, prm) ->
             contains_char "#" url5 = false /\ contains_char "#" prm = false).
  { intros url5 prm. destruct (mem sch uses_params && contains_char ";" url4).
    - now apply splitparams_free.
    - now intros [= <- <-]. }
  destruct (if mem sch uses_params && contains_char ";" url4 then _ else _)
    as [url5 prm] eqn:Hprm.
  destruct (Hp _ _ eq_refl) as [H5 Hpf].
  intros [= <-]. simpl. repeat split; auto.
  eapply split_scheme_free; eauto.
Qed.

Lemma geturl_without_fragment_free (u : string) (p : ParseResult) :
  urlparse u = Some p ->
  contains_char "#" (geturl (replace_fragment_empty p)) = false.
Proof.
  intros H. destruct (urlparse_components_free _ _ H) as (Hs & Hn & Hp & Hm & Hq).
  unfold geturl, replace_fragment_empty. cbn [scheme netloc path params query fragment is_empty].
  repeat match goal with
         | |- context [if ?b then _ else _] => destruct b
         end;
    rewrite ?contains_char_app, ?Hs, ?Hn, ?Hp, ?Hm, ?Hq; reflexivity.
Qed.

Lemma rstrip_keeps_absent (c d : ascii) (s : string) :
  contains_char c s = false -> contains_char c (rstrip d s) = false.
Proof.
  unfold rstrip. induction s as [|a r IH]; [reflexivity|].
  simpl. intros H. apply orb_false_iff in H as [Ha Hr]. specialize (IH Hr).
  destruct (rstrip_by (Ascii.eqb d) r) as [|b r'].
  - destruct (Ascii.eqb d a); simpl; [reflexivity|]. now rewrite Ha.
  - change (contains_char c (String a (String b r')) = false).
    cbn [contains_char] in *. now rewrite Ha, IH.
Qed.

(** C8, as stated, fails: with a query the path keeps its trailing
    slash, on harvesting and on dequeueing alike; and two trailing
    slashes are stripped, not one. *)
Lemma trailing_slash_survives_query :
  normalize_link "https://example.com/docs/?page=2"
  = inr "https://example.com/docs/?page=2" /\
  clean_url "https://example.com/docs/?page=2"
  = inr "https://example.com/docs/?page=2" /\
  path_has_trailing_slash "https://example.com/docs/?page=2" = true /\
  normalize_link "https://example.com/docs//" = inr "https://example.com/docs".
Proof. repeat split; vm_compute; reflexivity. Qed.

(** C8, amended.  Normalizing a link drops the fragment: the URL
    rebuilt from the parse of the link is the normalized link, then the
    slashes that were stripped, then the number sign and the fragment
    when there is one.  Slashes are stripped only when the parsed path is
    neither empty nor the root, and then all the trailing ones are.  The
    clean-up at dequeue does the same to the text of the URL itself.  So
    a normalized link holds no number sign, and the text of a normalized
    link or of a cleaned URL ends in a slash only when the path of the
    input is empty or the root.  Both steps give a result whenever the
    input parses. *)
Theorem normalization_result (u n : string) :
  (normalize_link u = inr n ->
   exists p tail,
     urlparse u = Some p /\
     geturl p = n +:+ tail +:+
                (if is_empty (fragment p) then EmptyString else "#" +:+ fragment p) /\
     all_slashes tail = true /\
     (path p = "" \/ path p = "/" -> tail = "") /\
     (path p <> "" -> path p <> "/" -> endswith n "/" = false) /\
     contains_char "#" n = false /\
     (endswith n "/" = true -> path p = "" \/ path p = "/"))
  /\ (clean_url u = inr n ->
      exists p tail,
        urlparse u = Some p /\
        u = n +:+ tail /\
        all_slashes tail = true /\
        (path p = "" \/ path p = "/" -> tail = "") /\
        (path p <> "" -> path p <> "/" -> endswith n "/" = false) /\
        (endswith n "/" = true -> path p = "" \/ path p = "/"))
  /\ (forall p, urlparse u = Some p ->
                (exists m, normalize_link u = inr m) /\ (exists m, clean_url u = inr m)).
Proof.
  split; [|split].
  - unfold normalize_link. destruct (urlparse u) as [p|] eqn:Hp; [|discriminate].
    pose proof (geturl_without_fragment_free _ _ Hp) as Hfree.
    pose proof (geturl_fragment_last p) as Hlast.
    set (g := geturl (replace_fragment_empty p)) in *.
    destruct (is_empty (path p)) eqn:He; cbn [negb andb].
    + assert (Hpath : path p = "") by (destruct (path p); [reflexivity|discriminate]).
      intros [= <-]. exists p, EmptyString.
      split; [reflexivity|]. split; [exact Hlast|].
      repeat split; auto. intros K. now destruct K.
    + apply is_empty_false in He.
      destruct (String.eqb (path p) "/") eqn:Hr; cbn [negb andb].
      * apply String.eqb_eq in Hr. intros [= <-]. exists p, EmptyString.
        split; [reflexivity|]. split; [exact Hlast|].
        repeat split; auto. intros _ K. now destruct K.
      * apply String.eqb_neq in Hr.
        destruct (endswith g "/") eqn:Hs; intros [= <-]; exists p.
        -- destruct (rstrip_slashes g) as (tail & E & Ht). exists tail.
           rewrite <- append_assoc, <- E, <- Hlast.
           repeat split; auto.
           ++ intros [K|K]; contradiction.
           ++ intros _ _. apply rstrip_no_trailing.
           ++ now apply rstrip_keeps_absent.
           ++ rewrite rstrip_no_trailing. discriminate.
        -- exists EmptyString. split; [reflexivity|]. split; [exact Hlast|].
           repeat split; auto. rewrite Hs. discriminate.
  - unfold clean_url. destruct (urlparse u) as [p|] eqn:Hp; [|discriminate].
    destruct (is_empty (path p)) eqn:He; cbn [negb andb].
    + assert (Hpath : path p = "") by (destruct (path p); [reflexivity|discriminate]).
      intros [= <-]. exists p, EmptyString. rewrite <- (append_empty u).
      repeat split; auto. intros K. now destruct K.
    + apply is_empty_false in He.
      destruct (String.eqb (path p) "/") eqn:Hr; cbn [negb andb].
      * apply String.eqb_eq in Hr. intros [= <-]. exists p, EmptyString.
        rewrite <- (append_empty u). repeat split; auto. intros _ K. now destruct K.
      * apply String.eqb_neq in Hr.
        destruct (endswith u "/") eqn:Hs; intros [= <-]; exists p.
        -- destruct (rstrip_slashes u) as (tail & E & Ht). exists tail.
           repeat split; auto.
           ++ intros [K|K]; contradiction.
           ++ intros _ _. apply rstrip_no_trailing.
           ++ rewrite rstrip_no_trailing. discriminate.
        -- exists EmptyString. rewrite <- (append_empty u).
           repeat split; auto. rewrite Hs. discriminate.
  - intros p Hp. unfold normalize_link, clean_url. rewrite Hp.
    split; destruct (_ && _); eauto.
Qed.

Lemma normalization_result_witness :
  exists p tail,
    urlparse "https://example.com/docs//#pricing" = Some p /\
    geturl p = "https://example.com/docs" +:+ tail +:+
               (if is_empty (fragment p) then EmptyString else "#" +:+ fragment p) /\
    all_slashes tail = true /\
    (path p = "" \/ path p = "/" -> tail = "") /\
    (path p <> "" -> path p <> "/" -> endswith "https://example.com/docs" "/" = false) /\
    contains_char "#" "https://example.com/docs" = false /\
    (endswith "https://example.com/docs" "/" = true -> path p = "" \/ path p = "/").
Proof.
  apply (normalization_result "https://example.com/docs//#pricing"
                              "https://example.com/docs").
  vm_compute. reflexivity.
Defined.

(* ===================================================================== *)
(** ** The crawl loop *)
(* ===================================================================== *)

Lemma is_empty_app (a b : string) : is_empty (a +:+ b) = is_empty a && is_empty b.
Proof. destruct a; reflexivity. Qed.

Lemma raise_for_status_error (r : response) :
  (400 <= status_code r < 600)%Z ->
  raise_for_status r = Some (RequestException (http_error_msg r)).
Proof.
  intros H. unfold raise_for_status, http_error_msg.
  destruct ((400 <=? status_code r)%Z && (status_code r <? 500)%Z) eqn:E4.
  - rewrite !is_empty_app. cbn. now rewrite andb_false_r.
  - destruct ((500 <=? status_code r)%Z && (status_code r <? 600)%Z) eqn:E5.
    + rewrite !is_empty_app. cbn. now rewrite andb_false_r.
    + exfalso. apply andb_false_iff in E4, E5. lia.
Qed.

Lemma raise_for_status_passes (r : response) :
  ~ (400 <= status_code r < 600)%Z -> raise_for_status r = None.
Proof.
  intros H. unfold raise_for_status, http_error_msg.
  destruct ((400 <=? status_code r)%Z && (status_code r <? 500)%Z) eqn:E4.
  - exfalso. apply andb_true_iff in E4. lia.
  - destruct ((500 <=? status_code r)%Z && (status_code r <? 600)%Z) eqn:E5.
    + exfalso. apply andb_true_iff in E5. lia.
    + reflexivity.
Qed.

Lemma decompose_selected_raises (sels : list selector) :
  forall d e, decompose_selected sels d = inl e ->
              exists type_name msg, e = Exception type_name msg.
Proof.
  induction sels as [|s rest IH]; intros d e H; simpl in H; [discriminate|].
  destruct s; simpl in H; try (eapply IH; exact H).
  injection H as <-. eauto.
Qed.

Lemma extract_raises (doc : soup) (e : exn) :
  extract doc = inl e -> exists type_name msg, e = Exception type_name msg.
Proof.
  unfold extract.
  destruct (find is_main_content doc); [discriminate|].
  destruct (find (has_name "main") doc); [discriminate|].
  destruct (find is_wrapper doc) as [w|].
  - destruct (decompose_selected wrapper_selectors [w]) eqn:E; [|discriminate].
    intros [= <-]. eapply decompose_selected_raises; eauto.
  - destruct (find (has_name "body") doc) as [b|]; [|discriminate].
    destruct (decompose_selected body_selectors [b]) eqn:E; [|discriminate].
    intros [= <-]. eapply decompose_selected_raises; eauto.
Qed.

Section LoopFacts.
Variable ALLOWED_DOMAIN : string.
Variable urljoin : string -> string -> exn + string.
Variable fetch : string -> fetch_outcome.

Local Abbreviation try_body := (try_body ALLOWED_DOMAIN urljoin fetch).
Local Abbreviation iteration := (iteration ALLOWED_DOMAIN urljoin fetch).
Local Abbreviation pass := (pass ALLOWED_DOMAIN urljoin fetch).
Local Abbreviation later := (later ALLOWED_DOMAIN urljoin fetch).
Local Abbreviation reachable := (reachable ALLOWED_DOMAIN urljoin fetch).

Lemma periodic_save_shape (s s' : state) (effs : list effect) :
  periodic_save s = (s', effs) ->
  queue s' = queue s /\ visited_urls s' = visited_urls s /\
  pages_crawled s' = pages_crawled s /\ crawl_data s' = crawl_data s /\
  ((effs = [] /\ last_save_count s' = last_save_count s) \/
   (effs = [Saved (crawl_data s) false] /\ last_save_count s' = pages_crawled s /\
    pages_crawled s mod SAVE_EVERY_N_PAGES = 0)) /\
  (last_save_count s < pages_crawled s ->
   effs = if pages_crawled s mod SAVE_EVERY_N_PAGES =? 0
          then [Saved (crawl_data s) false] else []).
Proof.
  unfold periodic_save.
  destruct (pages_crawled s mod SAVE_EVERY_N_PAGES =? 0) eqn:Hm; cbn [andb].
  - destruct (last_save_count s <? pages_crawled s) eqn:Hl; intros [= <- <-];
      repeat split; auto.
    + right. repeat split. now apply Nat.eqb_eq.
    + intros H. apply Nat.ltb_ge in Hl. lia.
  - intros [= <- <-]. repeat split; auto.
Qed.

(** What the body of the [try] statement does to the globals. *)
Lemma try_body_shape (u : string) (s s2 : state) (effs : list effect)
      (how : completion) :
  try_body u s = (s2, effs, how) ->
  visited_urls s2 = visited_urls s /\
  match how with
  | Normal =>
      (exists text title method,
          crawl_data s2 = <[u := Success text title method]> (crawl_data s)) /\
      pages_crawled s2 = pages_crawled s + 1 /\
      (last_save_count s2 = last_save_count s \/
       last_save_count s2 = pages_crawled s2) /\
      (last_save_count s < pages_crawled s + 1 ->
       effs = if pages_crawled s2 mod SAVE_EVERY_N_PAGES =? 0
              then [Saved (crawl_data s2) false] else [])
  | Continue =>
      (exists ct, crawl_data s2 = <[u := SkippedNonHtml ct]> (crawl_data s)) /\
      pages_crawled s2 = pages_crawled s + 1 /\
      last_save_count s2 = last_save_count s /\ effs = []
  | Raise e =>
      (crawl_data s2 = crawl_data s \/
       exists r, crawl_data s2 = <[u := r]> (crawl_data s)) /\
      pages_crawled s2 = pages_crawled s /\
      last_save_count s2 = last_save_count s /\
      (effs = [] \/ effs = [Saved (crawl_data s) false])
  end.
Proof.
  unfold Crawler.try_body.
  destruct (fetch u) as [e| |r].
  - intros [= <- <- <-]. repeat split; auto.
  - unfold signal_handler. intros [= <- <- <-]. repeat split; auto.
  - destruct (raise_for_status r) as [e|].
    { intros [= <- <- <-]. repeat split; auto. }
    destruct (negb (contains "text/html" _)).
    { intros [= <- <- <-]. simpl. repeat split; eauto. }
    destruct (parse r) as [e|doc].
    { intros [= <- <- <-]. repeat split; auto. }
    destruct (extract doc) as [e|[page_text method]].
    { intros [= <- <- <-]. repeat split; auto. }
    destruct (queue_links _ _ _ _ _ _) as [q [e|]].
    { intros [= <- <- <-]. simpl. repeat split; eauto. }
    destruct (periodic_save _) as [s3 effs3] eqn:Hps.
    intros [= <- <- <-].
    apply periodic_save_shape in Hps as (Hq & Hv & Hp & Hd & Hs & He).
    simpl in *. rewrite Hv, Hp, Hd. repeat split; eauto.
    + destruct Hs as [[_ Hs]|[_ [Hs _]]]; [left|right]; congruence.
Qed.

(** What a pass that returns to the loop test does to the globals:
    nothing when the URL was visited before; otherwise the URL becomes
    visited, gets its record, and the counter goes up by one. *)
Lemma iteration_continues (raw : string) (s s' : state) (effs : list effect) :
  iteration raw s = Continues s' effs ->
  (s' = s /\ effs = [] /\
   exists u, clean_url raw = inr u /\ u ∈ visited_urls s)
  \/ (exists u r,
         clean_url raw = inr u /\ (u ∉ visited_urls s) /\
         crawl_data s' = <[u := r]> (crawl_data s) /\
         pages_crawled s' = pages_crawled s + 1 /\
         visited_urls s' = {[u]} ∪ visited_urls s /\
         (last_save_count s' = last_save_count s \/
          last_save_count s' = pages_crawled s')).
Proof.
  unfold Crawler.iteration.
  destruct (clean_url raw) as [e|u] eqn:Hc; [discriminate|].
  destruct (bool_decide (u ∈ visited_urls s)) eqn:Hv.
  - intros [= <- <-]. left. repeat split. exists u. split; [reflexivity|].
    now apply bool_decide_eq_true in Hv.
  - apply bool_decide_eq_false in Hv. intros H. right. exists u.
    destruct (try_body u (add_visited u s)) as [[s2 effs2] how] eqn:Hb.
    apply try_body_shape in Hb as [Hvis Hb]. simpl in Hvis, Hb.
    unfold handle in H.
    destruct how as [| |[m|m|ty m| |c]]; try discriminate; injection H as <- <-.
    + destruct Hb as ((t & ti & me & Hd) & Hp & Hl & _). eexists. repeat split; eauto.
    + destruct Hb as ((ct & Hd) & Hp & Hl & _). eexists. repeat split; eauto.
    + destruct Hb as (Hd & Hp & Hl & _). exists (Error "Request timed out").
      simpl. rewrite Hp, Hl, Hvis. repeat split; auto.
      destruct Hd as [->|[r ->]]; [reflexivity|apply insert_insert_eq].
    + destruct Hb as (Hd & Hp & Hl & _). exists (Error m).
      simpl. rewrite Hp, Hl, Hvis. repeat split; auto.
      destruct Hd as [->|[r ->]]; [reflexivity|apply insert_insert_eq].
    + destruct Hb as (Hd & Hp & Hl & _).
      exists (ProcessingError (ty +:+ (": " +:+ m))).
      simpl. rewrite Hp, Hl, Hvis. repeat split; auto.
      destruct Hd as [->|[r ->]]; [reflexivity|apply insert_insert_eq].
Qed.

Lemma invariant_initial (start_url : string) : loop_invariant (initial start_url).
Proof.
  unfold loop_invariant, initial; simpl. repeat split; auto.
  intros u [r H]. rewrite lookup_empty in H. discriminate.
Qed.

Lemma invariant_pass (s s' : state) (effs : list effect) :
  loop_invariant s -> pass s effs s' -> loop_invariant s'.
Proof.
  intros (Hn & Hd & Hl) (raw & rest & Hq & Hit).
  apply iteration_continues in Hit
    as [(E & _ & _)|(u & r & Hc & Hv & Hdata & Hp & Hvis & Hls)].
  - subst s'. repeat split; auto.
  - simpl in *. repeat split.
    + rewrite Hp, Hdata, map_size_insert_None; [lia|].
      destruct (crawl_data s !! u) eqn:E; [|reflexivity].
      exfalso. apply Hv, Hd. eauto.
    + intros v Hsome. rewrite Hvis. rewrite Hdata in Hsome.
      apply elem_of_union.
      destruct (decide (u = v)) as [->|Hne];
        [left; now apply elem_of_singleton|right].
      rewrite lookup_insert_ne in Hsome by exact Hne.
      now apply Hd.
    + lia.
Qed.

Lemma invariant_later (s s' : state) :
  loop_invariant s -> later s s' -> loop_invariant s'.
Proof.
  intros Hs Hl. induction Hl as [|s1 s2 effs _ IH Hp]; [exact Hs|].
  eapply invariant_pass; eauto.
Qed.

Lemma invariant_reachable (start_url : string) (s : state) :
  reachable start_url s -> loop_invariant s.
Proof. apply invariant_later, invariant_initial. Qed.

(** A pass either leaves the store and the counter alone, or writes one
    new key and counts one page. *)
Lemma pass_adds_one (s s' : state) (effs : list effect) :
  loop_invariant s -> pass s effs s' ->
  (crawl_data s' = crawl_data s /\ pages_crawled s' = pages_crawled s)
  \/ (exists u r, crawl_data s !! u = None /\
                  crawl_data s' = <[u := r]> (crawl_data s) /\
                  pages_crawled s' = pages_crawled s + 1).
Proof.
  intros (Hn & Hd & Hl) (raw & rest & Hq & Hit).
  apply iteration_continues in Hit
    as [(E & _ & _)|(u & r & Hc & Hv & Hdata & Hp & _)].
  - subst s'. left. split; reflexivity.
  - right. exists u, r. simpl in *. repeat split; auto.
    destruct (crawl_data s !! u) eqn:E; [|reflexivity].
    exfalso. apply Hv, Hd. eauto.
Qed.

End LoopFacts.

(** *** Checkpoints *)

(** C2.  Whatever the earlier pages were recorded as, a pass that
    processes its page successfully counts it and, right then, writes the
    result map to the output file exactly when the count has become a
    multiple of the checkpoint interval. *)
Theorem checkpoint_on_every_nth_page
        (ALLOWED_DOMAIN : string) (urljoin : string -> string -> exn + string)
        (fetch : string -> fetch_outcome)
        (s s' : state) (raw u : string) (effs : list effect)
        (text title method : string) :
  last_save_count s <= pages_crawled s ->
  clean_url raw = inr u ->
  u ∉ visited_urls s ->
  iteration ALLOWED_DOMAIN urljoin fetch raw s = Continues s' effs ->
  crawl_data s' !! u = Some (Success text title method) ->
  pages_crawled s' = pages_crawled s + 1 /\
  effs = if pages_crawled s' mod SAVE_EVERY_N_PAGES =? 0
         then [Saved (crawl_data s') false] else [].
Proof.
  intros Hl Hc Hv Hit Hrec. unfold iteration in Hit. rewrite Hc in Hit.
  rewrite bool_decide_eq_false_2 in Hit by exact Hv.
  destruct (try_body ALLOWED_DOMAIN urljoin fetch u (add_visited u s))
    as [[s2 effs2] how] eqn:Hb.
  apply try_body_shape in Hb as [_ Hb]. simpl in Hb. unfold handle in Hit.
  destruct how as [| |[m|m|ty m| |c]]; try discriminate; injection Hit as <- <-;
    try (simpl in Hrec; rewrite lookup_insert_eq in Hrec; discriminate).
  - destruct Hb as (_ & Hp & _ & He). split; [exact Hp|]. apply He. lia.
  - destruct Hb as ((ct & Hd) & _). rewrite Hd, lookup_insert_eq in Hrec.
    discriminate.
Qed.

Lemma checkpoint_on_every_nth_page_witness :
  pages_crawled (state_of two_hundredth_pass) = 199 + 1 /\
  effects_of two_hundredth_pass
  = if pages_crawled (state_of two_hundredth_pass) mod SAVE_EVERY_N_PAGES =? 0
    then [Saved (crawl_data (state_of two_hundredth_pass)) false] else [].
Proof.
  apply (checkpoint_on_every_nth_page
           ALLOWED_DOMAIN absolute_only (seed_answers 200 landmark_page)
           (state_at 199 []) (state_of two_hundredth_pass) START_URL START_URL
           (effects_of two_hundredth_pass) "Hello World" "Welcome" METHOD_MAIN_ID).
  - simpl. lia.
  - vm_compute. reflexivity.
  - apply not_elem_of_empty.
  - vm_compute. reflexivity.
  - vm_compute. reflexivity.
Defined.

(** Every state met at the loop test has its last save at or below the
    count, so the side condition of the checkpoint theorem holds there. *)
Lemma last_save_bounded
      (ALLOWED_DOMAIN : string) (urljoin : string -> string -> exn + string)
      (fetch : string -> fetch_outcome) (start_url : string) (s : state) :
  reachable ALLOWED_DOMAIN urljoin fetch start_url s ->
  last_save_count s <= pages_crawled s.
Proof. intros H. now apply invariant_reachable in H as (_ & _ & H). Qed.

(** The configured host is that of the seed. *)
Lemma allowed_domain_of_seed : ALLOWED_DOMAIN = "www.workstream.us".
Proof. reflexivity. Qed.

(** A pass that records an error counts the page without testing for a
    checkpoint, also when the count reaches a multiple of the interval. *)
Lemma failed_page_counted_not_saved :
  let r := iteration ALLOWED_DOMAIN absolute_only all_time_out START_URL
                     (state_at 199 []) in
  pages_crawled (state_of r) = 200 /\ effects_of r = [].
Proof. split; vm_compute; reflexivity. Qed.

(** A save of the 200th page does happen. *)
Lemma two_hundredth_page_saved :
  exists data, effects_of two_hundredth_pass = [Saved data false] /\
               status <$> data !! START_URL = Some "success".
Proof. eexists. split; vm_compute; reflexivity. Qed.

(** *** The counter and the store *)

(** C10.  Whenever the loop condition is tested, the counter equals the
    number of records; a pass leaves both alone, or writes one record
    under a new key and counts one page. *)
Theorem counter_matches_store
        (ALLOWED_DOMAIN : string) (urljoin : string -> string -> exn + string)
        (fetch : string -> fetch_outcome) (start_url : string) (s : state) :
  reachable ALLOWED_DOMAIN urljoin fetch start_url s ->
  pages_crawled s = size (crawl_data s) /\
  forall effs s',
    pass ALLOWED_DOMAIN urljoin fetch s effs s' ->
    (crawl_data s' = crawl_data s /\ pages_crawled s' = pages_crawled s)
    \/ (exists u r, crawl_data s !! u = None /\
                    crawl_data s' = <[u := r]> (crawl_data s) /\
                    pages_crawled s' = pages_crawled s + 1).
Proof.
  intros H. apply invariant_reachable in H. split; [apply H|].
  intros effs s'. now apply pass_adds_one.
Qed.

Lemma linked_first_pass_reachable :
  reachable ALLOWED_DOMAIN absolute_only
            (seed_answers 200 (page_linking "https://www.workstream.us/about/"))
            START_URL (state_of linked_first_pass).
Proof.
  eapply later_pass; [apply later_now|].
  exists START_URL, []. split; [reflexivity|]. vm_compute. reflexivity.
Defined.

Lemma linked_second_pass_later :
  later ALLOWED_DOMAIN absolute_only
        (seed_answers 200 (page_linking "https://www.workstream.us/about/"))
        (state_of linked_first_pass) (state_of linked_second_pass).
Proof.
  eapply later_pass; [apply later_now|].
  exists ABOUT, []. split; vm_compute; reflexivity.
Defined.

Lemma counter_matches_store_witness :
  pages_crawled (state_of linked_second_pass)
  = size (crawl_data (state_of linked_second_pass)).
Proof.
  apply (counter_matches_store
           ALLOWED_DOMAIN absolute_only
           (seed_answers 200 (page_linking "https://www.workstream.us/about/"))
           START_URL (state_of linked_second_pass)).
  eapply later_pass; [apply linked_first_pass_reachable|].
  exists ABOUT, []. split; vm_compute; reflexivity.
Defined.

(** *** Write-once results *)

Lemma pass_keeps_records
      (ALLOWED_DOMAIN : string) (urljoin : string -> string -> exn + string)
      (fetch : string -> fetch_outcome) (s s' : state) (effs : list effect)
      (u : string) (r : page_record) :
  loop_invariant s -> pass ALLOWED_DOMAIN urljoin fetch s effs s' ->
  crawl_data s !! u = Some r -> crawl_data s' !! u = Some r.
Proof.
  intros Hinv Hp Hu.
  destruct (pass_adds_one _ _ _ _ _ _ Hinv Hp) as [[-> _]|(v & r' & Hnone & -> & _)];
    [exact Hu|].
  rewrite lookup_insert_ne; [exact Hu|]. intros ->. congruence.
Qed.

(** C3.  The code at the failing input: the seed is fetched and its
    text extracted, and the success record is stored (line 243); the page
    holds a link that [urlparse] refuses, the [ValueError] of lines
    258-259 leaves the link walk, and the [except Exception] clause of
    lines 286-290 stores a processing-error record under the same key.
    The same URL is written twice within one pass, and the page's text is
    lost. *)
Lemma success_record_replaced :
  let world := seed_answers 200 (page_linking "https://[bad/") in
  let body := try_body ALLOWED_DOMAIN absolute_only world START_URL
                       (add_visited START_URL (state_at 0 [])) in
  crawl_data (fst (fst body)) !! START_URL
  = Some (Success "Hello World more" NO_TITLE METHOD_MAIN_ID) /\
  snd body = Raise (Exception "ValueError" "Invalid IPv6 URL") /\
  record_after (iteration ALLOWED_DOMAIN absolute_only world START_URL (state_at 0 []))
               START_URL
  = Some (ProcessingError "ValueError: Invalid IPv6 URL").
Proof. repeat split; vm_compute; reflexivity. Qed.

(** X14.  From one test of the loop condition to any later one, a
    record that is in the store stays as it is; a URL that has a record
    is skipped when it comes out of the queue again, under whatever
    spelling; and between two loop tests the store changes by at most one
    record, under a key that had none. *)
Theorem results_write_once
        (ALLOWED_DOMAIN : string) (urljoin : string -> string -> exn + string)
        (fetch : string -> fetch_outcome) (start_url : string) (s : state) :
  reachable ALLOWED_DOMAIN urljoin fetch start_url s ->
  (forall s' u r,
      later ALLOWED_DOMAIN urljoin fetch s s' ->
      crawl_data s !! u = Some r -> crawl_data s' !! u = Some r)
  /\ (forall raw rest u,
         queue s = raw :: rest -> clean_url raw = inr u ->
         is_Some (crawl_data s !! u) ->
         iteration ALLOWED_DOMAIN urljoin fetch raw (set_queue rest s)
         = Continues (set_queue rest s) [])
  /\ (forall effs s',
         pass ALLOWED_DOMAIN urljoin fetch s effs s' ->
         crawl_data s' = crawl_data s
         \/ exists u r, crawl_data s !! u = None /\
                        crawl_data s' = <[u := r]> (crawl_data s)).
Proof.
  intros H. apply invariant_reachable in H. repeat split.
  - intros s' u r Hl. induction Hl as [|s1 s2 effs Hl IH Hp]; [auto|].
    intros Hu.
    apply (pass_keeps_records ALLOWED_DOMAIN urljoin fetch s1 s2 effs);
      [|exact Hp|now apply IH].
    now apply (invariant_later ALLOWED_DOMAIN urljoin fetch s).
  - intros raw rest u _ Hc Hsome. unfold iteration. rewrite Hc.
    rewrite bool_decide_eq_true_2; [reflexivity|]. simpl. now apply H.
  - intros effs s' Hp.
    destruct (pass_adds_one _ _ _ _ _ _ H Hp) as [[-> _]|(u & r & Hn & -> & _)];
      [left; reflexivity|right; eauto].
Qed.

Lemma results_write_once_witness :
  crawl_data (state_of linked_second_pass) !! START_URL
  = Some (Success "Hello World more" NO_TITLE METHOD_MAIN_ID).
Proof.
  apply (results_write_once
           ALLOWED_DOMAIN absolute_only
           (seed_answers 200 (page_linking "https://www.workstream.us/about/"))
           START_URL (state_of linked_first_pass) linked_first_pass_reachable).
  - apply linked_second_pass_later.
  - vm_compute. reflexivity.
Defined.

(** *** Per-URL failures *)

(** C9, as stated, fails: a response with the status 304 is not a 2xx
    response, and the page is recorded as a success. *)
Lemma not_modified_recorded_as_success :
  record_after (iteration ALLOWED_DOMAIN absolute_only (seed_answers 304 landmark_page)
                          START_URL (state_at 0 []))
               START_URL
  = Some (Success "Hello World" "Welcome" METHOD_MAIN_ID).
Proof. vm_compute. reflexivity. Qed.

(** C9, amended.  A timeout, a transport failure or a 4xx or 5xx status
    leaves a record with the status error; a failure to parse the body or
    to extract its text leaves one with the status processing_error; each
    time the pass returns to the loop test, with the queue as it was. *)
Theorem failures_recorded
        (ALLOWED_DOMAIN : string) (urljoin : string -> string -> exn + string)
        (fetch : string -> fetch_outcome)
        (s : state) (raw u : string) (rec : page_record) :
  failure fetch u rec ->
  clean_url raw = inr u ->
  u ∉ visited_urls s ->
  exists s',
    iteration ALLOWED_DOMAIN urljoin fetch raw s = Continues s' [] /\
    crawl_data s' !! u = Some rec /\
    queue s' = queue s /\
    match rec with
    | Error _ => status rec = "error"
    | ProcessingError _ => status rec = "processing_error"
    | _ => False
    end.
Proof.
  intros Hf Hc Hv. unfold iteration. rewrite Hc.
  rewrite bool_decide_eq_false_2 by exact Hv. unfold try_body.
  destruct Hf as [msg Hf|msg Hf|r Hf Hst|r ct ty msg Hf Hst Hct Hhtml Hp
                  |r ct doc e Hf Hst Hct Hhtml Hp He]; rewrite Hf.
  - eexists. repeat split. simpl. apply lookup_insert_eq.
  - eexists. repeat split. simpl. apply lookup_insert_eq.
  - rewrite (raise_for_status_error _ Hst).
    eexists. repeat split. simpl. apply lookup_insert_eq.
  - rewrite (raise_for_status_passes _ Hst), Hct, Hhtml. cbn [negb]. rewrite Hp.
    eexists. repeat split. simpl. apply lookup_insert_eq.
  - rewrite (raise_for_status_passes _ Hst), Hct, Hhtml. cbn [negb]. rewrite Hp, He.
    destruct (extract_raises _ _ He) as (ty & msg & ->).
    eexists. repeat split. simpl. apply lookup_insert_eq.
Qed.

Lemma failures_recorded_witness :
  exists s',
    iteration ALLOWED_DOMAIN absolute_only all_time_out START_URL (state_at 0 [])
    = Continues s' [] /\
    crawl_data s' !! START_URL = Some (Error "Request timed out") /\
    queue s' = [] /\ status (Error "Request timed out") = "error".
Proof.
  apply (failures_recorded ALLOWED_DOMAIN absolute_only all_time_out (state_at 0 [])
                           START_URL START_URL (Error "Request timed out")).
  - apply (fail_timeout all_time_out START_URL ""). reflexivity.
  - vm_compute. reflexivity.
  - apply not_elem_of_empty.
Defined.

(** *** Shutdown *)




(** A [KeyboardInterrupt] caught inside the loop is the one path that
    ends with another status. *)
Lemma keyboard_interrupt_exit_status :
  main absolute_only (fun _ => Raises KeyboardInterrupt) 5
  = Some ([Saved ∅ true; Saved ∅ true], 1%Z).
Proof. vm_compute. reflexivity. Qed.

(* ===================================================================== *)
(** ** Further properties of the code *)
(* ===================================================================== *)

Import Persist Runs.

(** *** Saving *)

(** X1.  [save_data] lets no [Exception] through: whatever the write
    raises is caught by the first clause and logged with its message.
    The [MemoryError] clause, which stands after it, never runs. *)
Theorem save_data_catches_every_exception (write : option exn) :
  save_data write <> inr LogMemoryError /\
  (forall e, save_data write = inl e -> is_Exception e = false) /\
  (forall e, write = Some e -> is_Exception e = true ->
             save_data write = inr (LogError (str e))).
Proof.
  unfold save_data. repeat split.
  - destruct write as [e|]; [|discriminate].
    destruct e as [m|m|ty m| |c]; simpl; discriminate.
  - intros e. destruct write as [e'|]; [|discriminate].
    destruct (is_Exception e') eqn:E; [discriminate|].
    destruct (is_MemoryError e'); [discriminate|]. now intros [= <-].
  - intros e -> He. now rewrite He.
Qed.

Lemma save_data_catches_every_exception_witness :
  save_data (Some (Exception "MemoryError" "")) = inr (LogError "").
Proof.
  pose proof (save_data_catches_every_exception (Some (Exception "MemoryError" "")))
    as (_ & _ & H).
  exact (H (Exception "MemoryError" "") eq_refl eq_refl).
Defined.

(** *** The frontier *)

Lemma enqueue_cases (A u : string) (visited : gset string) (q : list string) :
  enqueue A u visited q = q \/
  (enqueue A u visited q = q ++ [u] /\
   is_valid_url A u = true /\ (u ∉ visited) /\ (u ∉ q)).
Proof.
  unfold enqueue. destruct (is_valid_url A u); [|now left].
  destruct (bool_decide (u ∉ visited)) eqn:Hv; [|now left].
  destruct (bool_decide (u ∉ q)) eqn:Hq; [|now left].
  right. apply bool_decide_eq_true in Hv, Hq. auto.
Qed.

Lemma queue_links_appends_shared
      (ALLOWED_DOMAIN : string) (urljoin : string -> string -> exn + string)
      (current_url : string) (links : list node) (visited : gset string) :
  forall (q q' : list string) (raised : option exn),
    queue_links ALLOWED_DOMAIN urljoin current_url links visited q = (q', raised) ->
    exists added,
      q' = q ++ added /\
      (Forall (fun u => is_valid_url ALLOWED_DOMAIN u = true /\
                        (u ∉ visited) /\ (u ∉ q)) added /\
       NoDup added).
Proof.
  induction links as [|link rest IH]; intros q q' raised H; simpl in H.
  - injection H as <- <-. exists []. rewrite app_nil_r.
    repeat split; constructor.
  - assert (Hstop : forall e, (q, Some e) = (q', raised) ->
                              exists added,
                                q' = q ++ added /\
                                (Forall (fun u => is_valid_url ALLOWED_DOMAIN u = true /\
                                                  (u ∉ visited) /\ (u ∉ q)) added /\
                                 NoDup added)).
    { intros e [= <- <-]. exists []. rewrite app_nil_r. repeat split; constructor. }
    destruct (href_of link) as [href|]; [|eapply IH; exact H].
    destruct (is_empty href); [eapply IH; exact H|].
    destruct (urljoin current_url (strip href)) as [e|a]; [now apply (Hstop e)|].
    destruct (normalize_link a) as [e|u]; [now apply (Hstop e)|].
    destruct (enqueue_cases ALLOWED_DOMAIN u visited q) as [E|(E & Hv & Hs & Hq)];
      rewrite E in H; [eapply IH; exact H|].
    apply IH in H as (added & -> & Hall & Hnd).
    exists (u :: added). rewrite <- app_assoc. split; [reflexivity|]. split.
    + constructor; [auto|].
      eapply Forall_impl; [exact Hall|]. intros x (Hx1 & Hx2 & Hx3).
      repeat split; auto. intros Hin. apply Hx3, elem_of_app. now left.
    + apply NoDup_cons. split; [|exact Hnd].
      intros Hin. rewrite Forall_forall in Hall.
      destruct (Hall _ Hin) as (_ & _ & Hx). apply Hx, elem_of_app. right.
      now apply list_elem_of_singleton.
Qed.

(** X2.  The walk over the links of a page only appends to the queue:
    what was pending stays, in its order, and what is appended has
    passed the scope filter, is not visited, was not pending, and holds
    no URL twice.  This holds also when the walk is cut short by an
    exception. *)
Theorem queue_links_appends
        (ALLOWED_DOMAIN : string) (urljoin : string -> string -> exn + string)
        (current_url : string) (links : list node) (visited : gset string) :
  forall (q q' : list string) (raised : option exn),
    queue_links ALLOWED_DOMAIN urljoin current_url links visited q = (q', raised) ->
    exists added,
      q' = q ++ added /\
      Forall (fun u => is_valid_url ALLOWED_DOMAIN u = true /\
                       (u ∉ visited) /\ (u ∉ q)) added /\
      NoDup added.
Proof.
  intros q q' raised H.
  destruct (queue_links_appends_shared _ _ _ _ _ _ _ _ H) as (added & E & Hall & Hnd).
  exists added. auto.
Qed.

Lemma queue_links_appends_witness :
  exists added,
    queue (state_of busy_pass) = [] ++ added /\
    Forall (fun u => is_valid_url ALLOWED_DOMAIN u = true /\
                     (u ∉ ({[START_URL]} : gset string)) /\
                     (u ∉ ([] : list string)))
           added /\
    NoDup added.
Proof.
  apply (queue_links_appends
           ALLOWED_DOMAIN absolute_only START_URL (find_all is_link busy_page)
           {[START_URL]} [] (queue (state_of busy_pass)) None).
  vm_compute. reflexivity.
Defined.

(** The busy page queues its two in-scope pages once each, and nothing
    else. *)
Lemma busy_page_queue :
  queue (state_of busy_pass)
  = ["https://www.workstream.us/pricing"; "https://www.workstream.us/blog"].
Proof. vm_compute. reflexivity. Qed.

Section RunFacts.
Variable ALLOWED_DOMAIN : string.
Variable urljoin : string -> string -> exn + string.
Variable fetch : string -> fetch_outcome.

Local Abbreviation try_body := (try_body ALLOWED_DOMAIN urljoin fetch).
Local Abbreviation iteration := (iteration ALLOWED_DOMAIN urljoin fetch).
Local Abbreviation pass := (pass ALLOWED_DOMAIN urljoin fetch).
Local Abbreviation later := (later ALLOWED_DOMAIN urljoin fetch).
Local Abbreviation reachable := (reachable ALLOWED_DOMAIN urljoin fetch).
Local Abbreviation crawl_loop := (crawl_loop ALLOWED_DOMAIN urljoin fetch).

Lemma appended_nothing (visited : gset string) (q : list string) :
  exists added, q = q ++ added /\ appended ALLOWED_DOMAIN visited q added.
Proof. exists []. rewrite app_nil_r. repeat split; constructor. Qed.

Lemma try_body_queue (u : string) (s s2 : state) (effs : list effect)
      (how : completion) :
  try_body u s = (s2, effs, how) ->
  exists added, queue s2 = queue s ++ added /\
                appended ALLOWED_DOMAIN (visited_urls s) (queue s) added.
Proof.
  unfold Crawler.try_body.
  destruct (fetch u) as [e| |r]; try (intros [= <- <- <-]; apply appended_nothing).
  destruct (raise_for_status r) as [e|];
    [intros [= <- <- <-]; apply appended_nothing|].
  destruct (negb (contains "text/html" _));
    [intros [= <- <- <-]; apply appended_nothing|].
  destruct (parse r) as [e|doc]; [intros [= <- <- <-]; apply appended_nothing|].
  destruct (extract doc) as [e|[page_text method]];
    [intros [= <- <- <-]; apply appended_nothing|].
  destruct (queue_links _ _ _ _ _ _) as [q raised] eqn:Hq.
  apply queue_links_appends_shared in Hq as (added & -> & Hadd).
  destruct raised as [e|].
  - intros [= <- <- <-]. exists added. split; [reflexivity|exact Hadd].
  - destruct (periodic_save _) as [s3 effs3] eqn:Hps.
    apply periodic_save_shape in Hps as (Hq3 & _). intros [= <- <- <-].
    exists added. split; [exact Hq3|exact Hadd].
Qed.

(** A pass that returns to the loop test leaves the queue it was given
    with something appended. *)
Lemma iteration_queue (raw : string) (s s' : state) (effs : list effect) :
  iteration raw s = Continues s' effs ->
  exists added, queue s' = queue s ++ added /\
                Forall (fun u => is_valid_url ALLOWED_DOMAIN u = true /\
                                 (u ∉ queue s)) added /\
                NoDup added.
Proof.
  unfold Crawler.iteration.
  destruct (clean_url raw) as [e|u]; [discriminate|].
  destruct (bool_decide (u ∈ visited_urls s)).
  - intros [= <- <-]. exists []. rewrite app_nil_r. repeat split; constructor.
  - destruct (try_body u (add_visited u s)) as [[s2 effs2] how] eqn:Hb.
    apply try_body_queue in Hb as (added & Hq & Hall & Hnd). simpl in Hq, Hall.
    intros H. exists added.
    assert (Hgoal : Forall (fun u0 => is_valid_url ALLOWED_DOMAIN u0 = true /\
                                      (u0 ∉ queue s)) added).
    { eapply Forall_impl; [exact Hall|]. intros x (H1 & _ & H3). auto. }
    unfold handle in H.
    destruct how as [| |[m|m|ty m| |c]]; try discriminate; injection H as <- <-;
      auto.
Qed.

Lemma clean_url_parses (raw : string) :
  urlparse raw <> None -> exists u, clean_url raw = inr u.
Proof.
  unfold clean_url. destruct (urlparse raw) as [p|]; [|congruence]. intros _.
  destruct (_ && _); eauto.
Qed.

Lemma valid_url_parses (u : string) :
  is_valid_url ALLOWED_DOMAIN u = true -> urlparse u <> None.
Proof. unfold is_valid_url. destruct (urlparse u); [discriminate|discriminate]. Qed.

Lemma frontier_initial (start_url : string) :
  frontier_invariant ALLOWED_DOMAIN start_url (initial start_url).
Proof.
  split; simpl.
  - apply NoDup_singleton.
  - constructor; [now left|constructor].
Qed.

Lemma frontier_step (start_url raw : string) (rest : list string)
      (s s' : state) (effs : list effect) :
  frontier_invariant ALLOWED_DOMAIN start_url s ->
  queue s = raw :: rest ->
  iteration raw (set_queue rest s) = Continues s' effs ->
  frontier_invariant ALLOWED_DOMAIN start_url s'.
Proof.
  intros [Hnd Hall] Hq Hit. rewrite Hq in Hnd, Hall.
  apply NoDup_cons in Hnd as [_ Hnd]. apply Forall_cons in Hall as [_ Hall].
  apply iteration_queue in Hit as (added & E & Hadd & Hnda). simpl in E, Hadd.
  split; rewrite E.
  - apply NoDup_app. repeat split; auto.
    intros x Hx Hin. rewrite Forall_forall in Hadd. now apply (Hadd x Hin).
  - apply Forall_app. split; [exact Hall|].
    eapply Forall_impl; [exact Hadd|]. intros x [Hx _]. now right.
Qed.

Lemma frontier_later (start_url : string) (s s' : state) :
  frontier_invariant ALLOWED_DOMAIN start_url s -> later s s' ->
  frontier_invariant ALLOWED_DOMAIN start_url s'.
Proof.
  intros Hs Hl. induction Hl as [|s1 s2 effs _ IH (raw & rest & Hq & Hit)];
    [exact Hs|].
  eapply frontier_step; eauto.
Qed.

(** With a well-behaved world, whatever the body of the [try] statement
    raises is an [Exception]. *)
Lemma try_body_raises_ordinary (u : string) (s s2 : state) (effs : list effect)
      (e : exn) :
  well_behaved urljoin fetch ->
  try_body u s = (s2, effs, Raise e) -> is_Exception e = true.
Proof.
  intros [Hjoin Hfetch]. specialize (Hfetch u). unfold Crawler.try_body.
  destruct (fetch u) as [e'| |r]; [now intros [= <- <- <-]|contradiction|].
  destruct (raise_for_status r) as [e'|] eqn:Hr.
  { intros [= <- <- <-]. unfold raise_for_status in Hr.
    destruct (is_empty _); [discriminate|]. now injection Hr as <-. }
  destruct (negb (contains "text/html" _)); [discriminate|].
  destruct (parse r) as [e'|doc] eqn:Hp.
  { intros [= <- <- <-]. unfold parse in Hp.
    destruct (lxml_soup r); [discriminate|]. now apply Hfetch. }
  destruct (extract doc) as [e'|[page_text method]] eqn:He.
  { intros [= <- <- <-]. now destruct (extract_raises _ _ He) as (ty & m & ->). }
  destruct (queue_links _ _ _ _ _ _) as [q [e'|]] eqn:Hq.
  - intros [= <- <- <-]. clear - Hq Hjoin.
    revert Hq. generalize (queue (store u (Success page_text (page_title doc) method) s)).
    induction (find_all is_link doc) as [|link rest IH]; intros q0; simpl;
      [discriminate|].
    destruct (href_of link) as [href|]; [|apply IH].
    destruct (is_empty href); [apply IH|].
    destruct (urljoin u (strip href)) as [e1|a] eqn:Hj.
    { intros [= <- <-]. eapply Hjoin; eauto. }
    destruct (normalize_link a) as [e1|n] eqn:Hn; [|apply IH].
    intros [= <- <-]. unfold normalize_link in Hn.
    destruct (urlparse a); [|now injection Hn as <-].
    destruct (_ && _); discriminate.
  - destruct (periodic_save _). discriminate.
Qed.

Lemma iteration_continues_when_ordinary (raw : string) (s : state) :
  well_behaved urljoin fetch -> urlparse raw <> None ->
  exists s' effs, iteration raw s = Continues s' effs.
Proof.
  intros Hw Hp. destruct (clean_url_parses _ Hp) as [u Hc].
  unfold Crawler.iteration. rewrite Hc.
  destruct (bool_decide (u ∈ visited_urls s)); [eauto|].
  destruct (try_body u (add_visited u s)) as [[s2 effs2] how] eqn:Hb.
  destruct how as [| |e]; simpl; eauto.
  pose proof (try_body_raises_ordinary _ _ _ _ _ Hw Hb) as He.
  destruct e; try discriminate; eauto.
Qed.

Lemma crawl_loop_never_raises (start_url : string) :
  well_behaved urljoin fetch -> urlparse start_url <> None ->
  forall fuel s,
    frontier_invariant ALLOWED_DOMAIN start_url s ->
    forall e s' effs, crawl_loop fuel s <> Raised e s' effs.
Proof.
  intros Hw Hstart fuel. induction fuel as [|fuel IH]; intros s Hinv e s' effs;
    simpl; destruct (queue s) as [|raw rest] eqn:Hq; try discriminate.
  assert (Hp : urlparse raw <> None).
  { destruct Hinv as [_ Hall]. rewrite Hq in Hall.
    apply Forall_cons in Hall as [[->|Hv] _]; [exact Hstart|].
    now apply valid_url_parses. }
  destruct (iteration_continues_when_ordinary raw (set_queue rest s) Hw Hp)
    as (s1 & effs1 & Hit).
  rewrite Hit. pose proof (frontier_step _ _ _ _ _ _ Hinv Hq Hit) as Hinv1.
  specialize (IH s1 Hinv1).
  destruct (crawl_loop fuel s1) as [s2 e2|x s2 e2|s2 e2] eqn:Hr; simpl;
    try discriminate.
  exfalso. now apply (IH x s2 e2).
Qed.

End RunFacts.

(** *** An interrupt during the lxml parse *)

Lemma clean_url_parsed (raw u : string) : clean_url raw = inr u -> urlparse raw <> None.
Proof. unfold clean_url. now destruct (urlparse raw). Qed.

(** An interrupt that arrives while line 176 runs does not end the
    crawl.  The handler saves the result map as it is, nothing being
    stored for the URL yet; its [SystemExit(0)] is caught by the bare
    [except:] of line 177; the body is parsed with html.parser and the
    pass goes on.  When html.parser and urljoin raise nothing but
    Exceptions, the pass records the page and returns to the loop test:
    the process neither exits nor saves a final snapshot. *)
Lemma interrupt_during_parse_is_swallowed
      (ALLOWED_DOMAIN : string) (urljoin : string -> string -> exn + string)
      (fetch : string -> fetch_outcome) (raw : string) (s : state)
      (step : loop_step) :
  (forall base href e, urljoin base href = inl e -> is_Exception e = true) ->
  (forall u r e, fetch u = Responds r -> html_parser_soup r = inl e ->
                 is_Exception e = true) ->
  iteration_interrupted_in_parse ALLOWED_DOMAIN urljoin fetch raw s = Some step ->
  exists u r s' rest,
    clean_url raw = inr u /\ fetch u = Responds r /\
    step = Continues s' (Saved (crawl_data s) false :: rest) /\
    is_Some (crawl_data s' !! u) /\
    visited_urls s' = {[u]} ∪ visited_urls s.
Proof.
  intros Hjoin Hhtml. unfold iteration_interrupted_in_parse.
  destruct (clean_url raw) as [e|u] eqn:Hc; [discriminate|].
  destruct (bool_decide (u ∈ visited_urls s)) eqn:Hv; [discriminate|].
  apply bool_decide_eq_false in Hv.
  destruct (fetch u) as [e| |r] eqn:Hf; try discriminate.
  destruct (reaches_parse r); [|discriminate].
  cbn [signal_handler]. intros [= <-].
  assert (Hw : well_behaved urljoin (fun _ => Responds (lxml_raising r))).
  { split; [exact Hjoin|]. intros _ e He. simpl in He. eapply Hhtml; eauto. }
  destruct (iteration_continues_when_ordinary
              ALLOWED_DOMAIN urljoin _ raw s Hw (clean_url_parsed _ _ Hc))
    as (s' & rest & Hit).
  rewrite Hit. exists u, r, s', rest.
  split; [reflexivity|]. split; [exact Hf|]. split; [reflexivity|].
  apply iteration_continues in Hit
    as [(_ & _ & u' & Hc' & Hin)|(u' & rec & Hc' & _ & Hd & _ & Hvis & _)];
    rewrite Hc in Hc'; injection Hc' as <-.
  - contradiction.
  - split; [|exact Hvis]. rewrite Hd, lookup_insert_eq. eauto.
Qed.

(** The seed's pass with the interrupt during the lxml parse of the
    landmark page: one save, by the handler, of the empty map; the page
    is recorded as a success and the loop goes on. *)
Lemma swallowed_interrupt_goes_on :
  is_continues <$> swallowed_interrupt_pass = Some true /\
  effects_of <$> swallowed_interrupt_pass = Some [Saved ∅ false] /\
  (fun step => record_after step START_URL) <$> swallowed_interrupt_pass
  = Some (Some (Success "Hello World" "Welcome" METHOD_MAIN_ID)).
Proof. repeat split; vm_compute; reflexivity. Qed.

(** X3.  First in, first out: a pass takes the head of the queue and
    leaves the rest in its order, with what it found appended; what it
    appends has passed the scope filter, was not pending, and holds no
    URL twice. *)
Theorem pass_is_first_in_first_out
        (ALLOWED_DOMAIN : string) (urljoin : string -> string -> exn + string)
        (fetch : string -> fetch_outcome) (s s' : state) (effs : list effect) :
  pass ALLOWED_DOMAIN urljoin fetch s effs s' ->
  exists raw rest added,
    queue s = raw :: rest /\ queue s' = rest ++ added /\
    Forall (fun u => is_valid_url ALLOWED_DOMAIN u = true /\ (u ∉ rest)) added /\
    NoDup added.
Proof.
  intros (raw & rest & Hq & Hit). exists raw, rest.
  apply iteration_queue in Hit as (added & E & Hall & Hnd). eauto.
Qed.

Lemma busy_pass_is_a_pass :
  pass ALLOWED_DOMAIN absolute_only (seed_answers 200 busy_page)
       (initial START_URL) [] (state_of busy_pass).
Proof. exists START_URL, []. split; vm_compute; reflexivity. Defined.

Lemma pass_is_first_in_first_out_witness :
  exists raw rest added,
    queue (initial START_URL) = raw :: rest /\
    queue (state_of busy_pass) = rest ++ added /\
    Forall (fun u => is_valid_url ALLOWED_DOMAIN u = true /\ (u ∉ rest)) added /\
    NoDup added.
Proof.
  apply (pass_is_first_in_first_out
           ALLOWED_DOMAIN absolute_only (seed_answers 200 busy_page)
           (initial START_URL) (state_of busy_pass) []).
  exact busy_pass_is_a_pass.
Defined.

(** X4.  Whenever the loop condition is tested, no URL is pending
    twice, and every pending URL is the seed or has passed the scope
    filter. *)
Theorem pending_urls_in_scope
        (ALLOWED_DOMAIN : string) (urljoin : string -> string -> exn + string)
        (fetch : string -> fetch_outcome) (start_url : string) (s : state) :
  reachable ALLOWED_DOMAIN urljoin fetch start_url s ->
  NoDup (queue s) /\
  Forall (fun u => u = start_url \/ is_valid_url ALLOWED_DOMAIN u = true) (queue s).
Proof.
  intros H. apply (frontier_later ALLOWED_DOMAIN urljoin fetch start_url _ s)
    in H; [exact H|apply frontier_initial].
Qed.

Lemma busy_pass_reachable :
  reachable ALLOWED_DOMAIN absolute_only (seed_answers 200 busy_page)
            START_URL (state_of busy_pass).
Proof. eapply later_pass; [apply later_now|exact busy_pass_is_a_pass]. Defined.

Lemma pending_urls_in_scope_witness :
  NoDup (queue (state_of busy_pass)) /\
  Forall (fun u => u = START_URL \/ is_valid_url ALLOWED_DOMAIN u = true)
         (queue (state_of busy_pass)).
Proof.
  apply (pending_urls_in_scope
           ALLOWED_DOMAIN absolute_only (seed_answers 200 busy_page) START_URL).
  exact busy_pass_reachable.
Defined.

(** X5.  Only the scaffolding can end the crawl: in a world without
    interrupts where whatever is raised is an [Exception], and with a seed
    that parses, no exception leaves [crawl], however many URLs fail; so
    the main block ends a finished run with the exit status 0. *)
Theorem crawl_never_raises
        (ALLOWED_DOMAIN : string) (urljoin : string -> string -> exn + string)
        (fetch : string -> fetch_outcome) :
  well_behaved urljoin fetch ->
  (forall start_url fuel e s effs,
      urlparse start_url <> None ->
      crawl ALLOWED_DOMAIN urljoin fetch fuel start_url <> Raised e s effs)
  /\ (forall fuel trace code,
         main urljoin fetch fuel = Some (trace, code) -> code = 0%Z).
Proof.
  intros Hw. split.
  - intros start_url fuel e s effs Hp. unfold crawl.
    apply (crawl_loop_never_raises ALLOWED_DOMAIN urljoin fetch start_url Hw Hp).
    apply frontier_initial.
  - intros fuel trace code. unfold main, crawl.
    assert (Hp : urlparse START_URL <> None) by (vm_compute; discriminate).
    pose proof (crawl_loop_never_raises Crawler.ALLOWED_DOMAIN urljoin fetch START_URL
                                        Hw Hp fuel (initial START_URL)
                                        (frontier_initial _ _)) as Hn.
    destruct (crawl_loop Crawler.ALLOWED_DOMAIN urljoin fetch fuel (initial START_URL))
      as [s e|x s e|s e]; simpl; try discriminate.
    + now intros [= _ <-].
    + exfalso. now apply (Hn x s e).
Qed.

Lemma all_time_out_well_behaved : well_behaved absolute_only all_time_out.
Proof.
  split.
  - intros base href e. unfold absolute_only.
    destruct (urlparse href); [discriminate|]. now intros [= <-].
  - intros u. reflexivity.
Defined.

Lemma crawl_never_raises_witness : snd <$> timeout_run = Some 0%Z.
Proof.
  destruct timeout_run as [[trace code]|] eqn:E.
  - simpl. f_equal.
    apply (proj2 (crawl_never_raises ALLOWED_DOMAIN absolute_only all_time_out
                                     all_time_out_well_behaved) 5 trace code).
    exact E.
  - vm_compute in E. discriminate.
Defined.

(** *** The store, the checkpoints and the snapshots *)

Section StoreFacts.
Variable ALLOWED_DOMAIN : string.
Variable urljoin : string -> string -> exn + string.
Variable fetch : string -> fetch_outcome.

Local Abbreviation try_body := (try_body ALLOWED_DOMAIN urljoin fetch).
Local Abbreviation iteration := (iteration ALLOWED_DOMAIN urljoin fetch).
Local Abbreviation pass := (pass ALLOWED_DOMAIN urljoin fetch).
Local Abbreviation later := (later ALLOWED_DOMAIN urljoin fetch).
Local Abbreviation reachable := (reachable ALLOWED_DOMAIN urljoin fetch).
Local Abbreviation crawl_loop := (crawl_loop ALLOWED_DOMAIN urljoin fetch).

(** The effects of the body of the [try] statement: none; or the
    periodic save, of the store as it is then; or the save of the signal
    handler, of the store as it was. *)
Lemma try_body_effects (u : string) (s s2 : state) (effs : list effect)
      (how : completion) :
  try_body u s = (s2, effs, how) ->
  (effs = [] /\ last_save_count s2 = last_save_count s)
  \/ (how = Normal /\ effs = [Saved (crawl_data s2) false] /\
      last_save_count s2 = pages_crawled s2 /\
      pages_crawled s2 mod SAVE_EVERY_N_PAGES = 0 /\
      pages_crawled s2 = pages_crawled s + 1)
  \/ (how = Raise (SystemExit 0) /\ effs = [Saved (crawl_data s) false] /\
      s2 = s /\ fetch u = Interrupted).
Proof.
  unfold Crawler.try_body.
  destruct (fetch u) as [e| |r].
  - intros [= <- <- <-]. now left.
  - unfold signal_handler. intros [= <- <- <-]. right. right. auto.
  - destruct (raise_for_status r) as [e|]; [intros [= <- <- <-]; now left|].
    destruct (negb (contains "text/html" _)); [intros [= <- <- <-]; now left|].
    destruct (parse r) as [e|doc]; [intros [= <- <- <-]; now left|].
    destruct (extract doc) as [e|[page_text method]];
      [intros [= <- <- <-]; now left|].
    destruct (queue_links _ _ _ _ _ _) as [q [e|]];
      [intros [= <- <- <-]; now left|].
    destruct (periodic_save _) as [s3 effs3] eqn:Hps.
    apply periodic_save_shape in Hps as (_ & _ & Hp & Hd & Hs & _).
    simpl in Hp, Hd, Hs. intros [= <- <- <-].
    destruct Hs as [[-> Hs]|(-> & Hs & Hm)]; [left; auto|].
    right. left. rewrite Hd, Hp. auto.
Qed.

Lemma iteration_checkpoint (raw : string) (s s' : state) (effs : list effect) :
  iteration raw s = Continues s' effs ->
  (effs = [] /\ last_save_count s' = last_save_count s)
  \/ (effs = [Saved (crawl_data s') false] /\
      last_save_count s' = pages_crawled s' /\
      pages_crawled s' mod SAVE_EVERY_N_PAGES = 0 /\
      pages_crawled s' = pages_crawled s + 1).
Proof.
  unfold Crawler.iteration.
  destruct (clean_url raw) as [e|u]; [discriminate|].
  destruct (bool_decide (u ∈ visited_urls s)); [intros [= <- <-]; now left|].
  destruct (try_body u (add_visited u s)) as [[s2 effs2] how] eqn:Hb.
  apply try_body_effects in Hb as [[-> Hl]|[(-> & -> & Hl)|(-> & _)]];
    simpl in *; [|intros [= <- <-]; now right|discriminate].
  destruct how as [| |[m|m|ty m| |c]]; try discriminate; intros [= <- <-];
    left; auto.
Qed.

Lemma store_initial (start_url : string) : store_invariant (initial start_url).
Proof. split; [symmetry; apply dom_empty_L|reflexivity]. Qed.

Lemma store_pass (s s' : state) (effs : list effect) :
  store_invariant s -> pass s effs s' -> store_invariant s'.
Proof.
  intros [Hv Hl] (raw & rest & Hq & Hit). split.
  - apply iteration_continues in Hit
      as [(E & _)|(u & r & _ & _ & Hd & _ & Hvis & _)]; [now subst s'|].
    simpl in *. now rewrite Hvis, Hd, dom_insert_L, Hv.
  - apply iteration_checkpoint in Hit as [[_ E]|(_ & E & Hm & _)]; simpl in E.
    + now rewrite E.
    + now rewrite E.
Qed.

Lemma store_later (s s' : state) :
  store_invariant s -> later s s' -> store_invariant s'.
Proof.
  intros Hs Hl. induction Hl as [|s1 s2 effs _ IH Hp]; [exact Hs|].
  eapply store_pass; eauto.
Qed.

(** What a pass does to the store and what it saves, whether it returns
    to the loop test or leaves the loop. *)
Lemma iteration_saved (raw : string) (s : state) :
  (forall u, is_Some (crawl_data s !! u) -> u ∈ visited_urls s) ->
  crawl_data s ⊆ crawl_data (state_of (iteration raw s)) /\
  Forall (fun e => saved_map e ⊆ crawl_data (state_of (iteration raw s)))
         (effects_of (iteration raw s)).
Proof.
  intros Hd. unfold Crawler.iteration.
  destruct (clean_url raw) as [e|u]; [simpl; split; [reflexivity|constructor]|].
  destruct (bool_decide (u ∈ visited_urls s)) eqn:Hv;
    [simpl; split; [reflexivity|constructor]|].
  apply bool_decide_eq_false in Hv.
  assert (Hnone : crawl_data s !! u = None).
  { destruct (crawl_data s !! u) eqn:E; [|reflexivity]. exfalso. apply Hv, Hd. eauto. }
  destruct (try_body u (add_visited u s)) as [[s2 effs2] how] eqn:Hb.
  pose proof (try_body_shape _ _ _ _ _ _ _ _ Hb) as [_ Hshape].
  apply try_body_effects in Hb as Heff. simpl in Hshape, Heff.
  assert (Hins : forall r, crawl_data s ⊆ <[u := r]> (crawl_data s))
    by (intros r; now apply insert_subseteq).
  destruct how as [| |e]; simpl.
  - destruct Hshape as ((t & ti & m & Hdata) & _). split.
    + rewrite Hdata. apply Hins.
    + destruct Heff as [[-> _]|[(_ & -> & _)|(E & _)]]; [constructor| |discriminate].
      constructor; [reflexivity|constructor].
  - destruct Hshape as ((ct & Hdata) & _ & _ & ->). split; [|constructor].
    rewrite Hdata. apply Hins.
  - destruct Hshape as (Hdata & _).
    assert (Hsub : crawl_data s ⊆ crawl_data s2)
      by (destruct Hdata as [->|[r ->]]; [reflexivity|apply Hins]).
    assert (Hover : forall r, crawl_data s ⊆ <[u := r]> (crawl_data s2)).
    { intros r. destruct Hdata as [->|[r' ->]]; [apply Hins|].
      rewrite insert_insert_eq. apply Hins. }
    destruct Heff as [[-> _]|[(E & _)|(E & -> & -> & _)]]; [|discriminate|].
    + destruct e as [m|m|ty m| |c]; simpl; split; auto; try constructor;
        try reflexivity; constructor.
    + injection E as ->. simpl. split; [reflexivity|].
      constructor; [reflexivity|constructor].
Qed.

Lemma iteration_keeps_invariant (raw : string) (s s' : state) (effs : list effect) :
  loop_invariant s -> iteration raw s = Continues s' effs -> loop_invariant s'.
Proof.
  intros (Hn & Hd & Hl) Hit.
  apply iteration_continues in Hit
    as [(E & _ & _)|(u & r & Hc & Hv & Hdata & Hp & Hvis & Hls)].
  - subst s'. repeat split; auto.
  - repeat split.
    + rewrite Hp, Hdata, map_size_insert_None; [lia|].
      destruct (crawl_data s !! u) eqn:E; [|reflexivity].
      exfalso. apply Hv, Hd. eauto.
    + intros v Hsome. rewrite Hvis. rewrite Hdata in Hsome.
      apply elem_of_union.
      destruct (decide (u = v)) as [->|Hne];
        [left; now apply elem_of_singleton|right].
      rewrite lookup_insert_ne in Hsome by exact Hne.
      now apply Hd.
    + lia.
Qed.

(** Every map saved in the course of [crawl] is part of the store the
    call ends with, as is the store it began with. *)
Lemma crawl_loop_saved (fuel : nat) :
  forall s,
    loop_invariant s ->
    crawl_data s ⊆ crawl_data (result_state (crawl_loop fuel s)) /\
    Forall (fun e => saved_map e ⊆ crawl_data (result_state (crawl_loop fuel s)))
           (result_effects (crawl_loop fuel s)).
Proof.
  induction fuel as [|fuel IH]; intros s Hinv; simpl;
    destruct (queue s) as [|raw rest] eqn:Hq;
    try (simpl; split; [reflexivity|constructor]).
  assert (Hinv0 : loop_invariant (set_queue rest s)) by exact Hinv.
  destruct Hinv0 as (_ & Hd & _).
  pose proof (iteration_saved raw (set_queue rest s) Hd) as [Hsub Hall].
  destruct (iteration raw (set_queue rest s)) as [s1 effs1|e s1 effs1] eqn:Hit;
    simpl in Hsub, Hall; [|simpl; auto].
  assert (Hinv1 : loop_invariant s1)
    by (eapply iteration_keeps_invariant; [|exact Hit]; exact Hinv).
  destruct (IH s1 Hinv1) as [Hsub1 Hall1].
  destruct (crawl_loop fuel s1) as [s2 e2|x s2 e2|s2 e2]; simpl in *;
    (split; [etransitivity; eauto|];
     apply Forall_app; split; [|exact Hall1];
     eapply Forall_impl; [exact Hall|]; intros y Hy; simpl in Hy;
     transitivity (crawl_data s1); assumption).
Qed.

End StoreFacts.

(** X6.  Whenever the loop condition is tested, the visited URLs are
    exactly the recorded ones, so the two numbers printed at the end of
    [crawl], the size of [visited_urls] and [pages_crawled], are equal. *)
Theorem visited_are_the_recorded
        (ALLOWED_DOMAIN : string) (urljoin : string -> string -> exn + string)
        (fetch : string -> fetch_outcome) (start_url : string) (s : state) :
  reachable ALLOWED_DOMAIN urljoin fetch start_url s ->
  visited_urls s = dom (crawl_data s) /\
  size (visited_urls s) = pages_crawled s.
Proof.
  intros H.
  pose proof (store_later _ _ _ _ _ (store_initial start_url) H) as [Hv _].
  apply invariant_reachable in H as (Hn & _). split; [exact Hv|].
  now rewrite Hv, size_dom, Hn.
Qed.

Lemma visited_are_the_recorded_witness :
  visited_urls (state_of linked_second_pass)
  = dom (crawl_data (state_of linked_second_pass)) /\
  size (visited_urls (state_of linked_second_pass))
  = pages_crawled (state_of linked_second_pass).
Proof.
  apply (visited_are_the_recorded
           ALLOWED_DOMAIN absolute_only
           (seed_answers 200 (page_linking "https://www.workstream.us/about/"))
           START_URL).
  eapply later_pass; [apply linked_first_pass_reachable|].
  exists ABOUT, []. split; vm_compute; reflexivity.
Defined.

Lemma run_later
      (ALLOWED_DOMAIN : string) (urljoin : string -> string -> exn + string)
      (fetch : string -> fetch_outcome) (n : nat) :
  forall s0 s s',
    later ALLOWED_DOMAIN urljoin fetch s0 s ->
    run ALLOWED_DOMAIN urljoin fetch n s = Some s' ->
    later ALLOWED_DOMAIN urljoin fetch s0 s'.
Proof.
  induction n as [|n IH]; intros s0 s s' Hl; simpl.
  - now intros [= <-].
  - destruct (queue s) as [|raw rest] eqn:Hq; [discriminate|].
    destruct (iteration _ _ _ raw (set_queue rest s)) as [s1 effs|e s1 effs] eqn:Hit;
      [|discriminate].
    apply IH. apply (later_pass _ _ _ _ s s1 effs); [exact Hl|].
    exists raw, rest. split; [exact Hq|exact Hit].
Qed.

Lemma chain_state_reachable (n : nat) :
  is_Some (run ALLOWED_DOMAIN absolute_only chain n (initial START_URL)) ->
  reachable ALLOWED_DOMAIN absolute_only chain START_URL (chain_state n).
Proof.
  intros [s' H]. unfold chain_state. rewrite H. simpl.
  eapply run_later; [apply later_now|exact H].
Qed.

Lemma chain_pass_is_a_pass (n : nat) :
  negb (is_empty (hd EmptyString (queue (chain_state n)))) = true ->
  is_continues (chain_pass n) = true ->
  pass ALLOWED_DOMAIN absolute_only chain (chain_state n)
       (effects_of (chain_pass n)) (state_of (chain_pass n)).
Proof.
  intros Hq Hc. exists (hd EmptyString (queue (chain_state n))), (tl (queue (chain_state n))).
  split.
  - destruct (queue (chain_state n)); [discriminate Hq|reflexivity].
  - fold (chain_pass n). now destruct (chain_pass n).
Qed.

(** X7.  A pass during which no interrupt arrives saves nothing, or it
    saves once, the whole store as it is after the pass, and then the
    number of records is a positive multiple of the interval and
    [last_save_count] is set to it.  When an interrupt arrives during the
    lxml parse and the pass returns to the loop test all the same, the
    handler's save comes first, of the store as it was before the pass,
    and what follows it is as in a pass without interrupt.  Either way
    [last_save_count] is a multiple of the interval at the loop test. *)
Theorem checkpoints_hold_full_intervals
        (ALLOWED_DOMAIN : string) (urljoin : string -> string -> exn + string)
        (fetch : string -> fetch_outcome) (start_url : string) (s : state) :
  reachable ALLOWED_DOMAIN urljoin fetch start_url s ->
  last_save_count s mod SAVE_EVERY_N_PAGES = 0 /\
  (forall effs s',
      pass ALLOWED_DOMAIN urljoin fetch s effs s' ->
      effs = [] \/
      (effs = [Saved (crawl_data s') false] /\
       size (crawl_data s') mod SAVE_EVERY_N_PAGES = 0 /\
       0 < size (crawl_data s') /\
       last_save_count s' = size (crawl_data s')))
  /\ (forall raw rest effs s',
         queue s = raw :: rest ->
         iteration_interrupted_in_parse ALLOWED_DOMAIN urljoin fetch raw
                                        (set_queue rest s)
         = Some (Continues s' effs) ->
         last_save_count s' mod SAVE_EVERY_N_PAGES = 0 /\
         exists periodic,
           effs = Saved (crawl_data s) false :: periodic /\
           (periodic = [] \/
            (periodic = [Saved (crawl_data s') false] /\
             size (crawl_data s') mod SAVE_EVERY_N_PAGES = 0 /\
             0 < size (crawl_data s') /\
             last_save_count s' = size (crawl_data s')))).
Proof.
  intros H.
  pose proof (store_later _ _ _ _ _ (store_initial start_url) H) as [_ Hl].
  apply invariant_reachable in H.
  assert (Hstep : forall fetch' effs s',
             pass ALLOWED_DOMAIN urljoin fetch' s effs s' ->
             last_save_count s' mod SAVE_EVERY_N_PAGES = 0 /\
             (effs = [] \/
              (effs = [Saved (crawl_data s') false] /\
               size (crawl_data s') mod SAVE_EVERY_N_PAGES = 0 /\
               0 < size (crawl_data s') /\
               last_save_count s' = size (crawl_data s')))).
  { intros fetch' effs s' Hp.
    pose proof (invariant_pass _ _ _ _ _ _ H Hp) as (Hn' & _).
    destruct Hp as (raw & rest & Hq & Hit).
    apply iteration_checkpoint in Hit as [[-> E]|(-> & E & Hm & Hp)].
    - simpl in E. rewrite E. split; [exact Hl|now left].
    - rewrite E. split; [exact Hm|]. right. rewrite <- Hn'. repeat split; auto. lia. }
  split; [exact Hl|]. split.
  - intros effs s' Hp. now apply (Hstep fetch).
  - intros raw rest effs s' Hq. unfold iteration_interrupted_in_parse.
    destruct (clean_url raw) as [e|u]; [discriminate|].
    destruct (bool_decide _); [discriminate|].
    destruct (fetch u) as [e| |r]; try discriminate.
    destruct (reaches_parse r); [|discriminate].
    cbn [signal_handler].
    destruct (iteration _ _ _ raw (set_queue rest s)) as [s1 effs1|e s1 effs1] eqn:Hit;
      [|discriminate].
    intros [= <- <-].
    destruct (Hstep (fun _ => Responds (lxml_raising r)) effs1 s1) as [Hm Hs].
    { exists raw, rest. now split. }
    split; [exact Hm|]. exists effs1. split; [reflexivity|exact Hs].
Qed.

Lemma checkpoints_hold_full_intervals_witness :
  last_save_count (chain_state 199) mod SAVE_EVERY_N_PAGES = 0 /\
  effects_of (chain_pass 199) = [Saved (crawl_data (state_of (chain_pass 199))) false] /\
  size (crawl_data (state_of (chain_pass 199))) mod SAVE_EVERY_N_PAGES = 0 /\
  0 < size (crawl_data (state_of (chain_pass 199))) /\
  last_save_count (state_of (chain_pass 199))
  = size (crawl_data (state_of (chain_pass 199))).
Proof.
  assert (Hr : reachable ALLOWED_DOMAIN absolute_only chain START_URL (chain_state 199)).
  { apply chain_state_reachable. apply is_Some_alt. vm_compute. exact I. }
  destruct (checkpoints_hold_full_intervals
              ALLOWED_DOMAIN absolute_only chain START_URL (chain_state 199) Hr)
    as (Hl & Hp & _).
  split; [exact Hl|].
  destruct (Hp (effects_of (chain_pass 199)) (state_of (chain_pass 199))) as [He|Hs].
  - apply chain_pass_is_a_pass; vm_compute; reflexivity.
  - assert (Hlen : length (effects_of (chain_pass 199)) = 1) by (vm_compute; reflexivity).
    rewrite He in Hlen. discriminate Hlen.
  - exact Hs.
Defined.

(** X8.  However a call of [crawl] ends, every map it saved on the way
    is part of the store it ends with: no snapshot holds a record that
    is changed or lost later.  The trace of the main block ends with the
    final save of that store. *)
Theorem snapshots_grow
        (ALLOWED_DOMAIN : string) (urljoin : string -> string -> exn + string)
        (fetch : string -> fetch_outcome) (fuel : nat) (start_url : string) :
  let r := crawl ALLOWED_DOMAIN urljoin fetch fuel start_url in
  Forall (fun e => saved_map e ⊆ crawl_data (result_state r)) (result_effects r) /\
  forall trace code,
    main_block r = Some (trace, code) ->
    trace = result_effects r ++ [Saved (crawl_data (result_state r)) true].
Proof.
  intros r. split.
  - apply (crawl_loop_saved ALLOWED_DOMAIN urljoin fetch fuel (initial start_url)).
    apply invariant_initial.
  - intros trace code. destruct r as [s effs|e s effs|s effs]; simpl.
    + now intros [= <- _].
    + destruct (is_Exception e); now intros [= <- _].
    + discriminate.
Qed.

Lemma linked_second_pass_is_a_pass :
  pass ALLOWED_DOMAIN absolute_only
       (seed_answers 200 (page_linking "https://www.workstream.us/about/"))
       (state_of linked_first_pass) (effects_of linked_second_pass)
       (state_of linked_second_pass).
Proof. exists ABOUT, []. split; vm_compute; reflexivity. Defined.

Lemma snapshots_grow_witness :
  let r := crawl ALLOWED_DOMAIN absolute_only interrupted_after_seed 5 START_URL in
  Forall (fun e => saved_map e ⊆ crawl_data (result_state r)) (result_effects r).
Proof.
  exact (proj1 (snapshots_grow ALLOWED_DOMAIN absolute_only interrupted_after_seed
                               5 START_URL)).
Defined.

(** In that run the handler saved one record, that of the seed. *)
Lemma interrupted_run_effects :
  map (fun e => size (saved_map e))
      (result_effects
         (crawl ALLOWED_DOMAIN absolute_only interrupted_after_seed 5 START_URL))
  = [1].
Proof. vm_compute. reflexivity. Qed.

(** X9.  An interrupt that arrives during the request for a URL makes
    [crawl] end with [SystemExit(0)] after one save, by the handler, of
    the store as it was before the interrupted URL: the snapshot holds as
    many records as pages were counted and none for that URL; the main
    block saves the same store again and the exit status is 0. *)
Theorem interrupt_saves_what_was_counted
        (ALLOWED_DOMAIN : string) (urljoin : string -> string -> exn + string)
        (fetch : string -> fetch_outcome) (start_url : string) (s : state)
        (raw u : string) (rest : list string) (fuel : nat) :
  reachable ALLOWED_DOMAIN urljoin fetch start_url s ->
  queue s = raw :: rest ->
  clean_url raw = inr u ->
  u ∉ visited_urls s ->
  fetch u = Interrupted ->
  let r := crawl_loop ALLOWED_DOMAIN urljoin fetch (S fuel) s in
  r = Raised (SystemExit 0) (add_visited u (set_queue rest s))
             [Saved (crawl_data s) false] /\
  size (crawl_data s) = pages_crawled s /\
  crawl_data s !! u = None /\
  main_block r = Some ([Saved (crawl_data s) false; Saved (crawl_data s) true], 0%Z).
Proof.
  intros Hr Hq Hc Hv Hf r.
  assert (E : r = Raised (SystemExit 0) (add_visited u (set_queue rest s))
                         [Saved (crawl_data s) false]).
  { unfold r. simpl. rewrite Hq. unfold iteration. rewrite Hc.
    rewrite bool_decide_eq_false_2 by exact Hv. unfold try_body. rewrite Hf.
    reflexivity. }
  apply invariant_reachable in Hr as (Hn & Hd & _).
  repeat split; auto.
  - destruct (crawl_data s !! u) eqn:K; [|reflexivity]. exfalso. apply Hv, Hd. eauto.
  - now rewrite E.
Qed.

Lemma seed_pass_before_interrupt_reachable :
  reachable ALLOWED_DOMAIN absolute_only interrupted_after_seed START_URL
            (state_of seed_pass_before_interrupt).
Proof.
  eapply later_pass; [apply later_now|].
  exists START_URL, []. split; vm_compute; reflexivity.
Defined.

Lemma interrupt_saves_what_was_counted_witness :
  let s := state_of seed_pass_before_interrupt in
  let r := crawl_loop ALLOWED_DOMAIN absolute_only interrupted_after_seed 1 s in
  r = Raised (SystemExit 0) (add_visited ABOUT (set_queue [] s))
             [Saved (crawl_data s) false] /\
  size (crawl_data s) = pages_crawled s /\
  crawl_data s !! ABOUT = None /\
  main_block r = Some ([Saved (crawl_data s) false; Saved (crawl_data s) true], 0%Z).
Proof.
  apply (interrupt_saves_what_was_counted
           ALLOWED_DOMAIN absolute_only interrupted_after_seed START_URL
           (state_of seed_pass_before_interrupt) ABOUT ABOUT [] 0).
  - exact seed_pass_before_interrupt_reachable.
  - vm_compute. reflexivity.
  - vm_compute. reflexivity.
  - vm_compute. intros H. discriminate H.
  - reflexivity.
Defined.

(** *** Responses that are not HTML *)

(** X10.  A response whose status is not 4xx or 5xx and whose
    content-type header, lower-cased, does not contain text/html, or is
    missing, is recorded as skipped with that lower-cased content type
    (the empty text when the header is missing) and counted; its body is
    neither parsed nor searched for links, so the queue stays as it is,
    and nothing is saved. *)
Theorem non_html_is_skipped
        (ALLOWED_DOMAIN : string) (urljoin : string -> string -> exn + string)
        (fetch : string -> fetch_outcome)
        (s : state) (raw u : string) (r : response) :
  clean_url raw = inr u ->
  u ∉ visited_urls s ->
  fetch u = Responds r ->
  ~ (400 <= status_code r < 600)%Z ->
  let content_type := lower (default EmptyString (content_type_header r)) in
  contains "text/html" content_type = false ->
  exists s',
    iteration ALLOWED_DOMAIN urljoin fetch raw s = Continues s' [] /\
    crawl_data s' !! u = Some (SkippedNonHtml content_type) /\
    pages_crawled s' = pages_crawled s + 1 /\
    queue s' = queue s /\
    last_save_count s' = last_save_count s.
Proof.
  intros Hc Hv Hf Hst ct Hct. unfold iteration. rewrite Hc.
  rewrite bool_decide_eq_false_2 by exact Hv. unfold try_body. rewrite Hf.
  rewrite (raise_for_status_passes _ Hst).
  replace (lower match content_type_header r with
                 | Some v => v
                 | None => EmptyString
                 end) with ct by (unfold ct; now destruct (content_type_header r)).
  rewrite Hct. simpl. eexists. repeat split. simpl. apply lookup_insert_eq.
Qed.

Lemma non_html_is_skipped_witness :
  exists s',
    iteration ALLOWED_DOMAIN absolute_only (seed_responds untyped_response)
              START_URL (state_at 7 ["https://www.workstream.us/a"])
    = Continues s' [] /\
    crawl_data s' !! START_URL = Some (SkippedNonHtml "") /\
    pages_crawled s' = 7 + 1 /\
    queue s' = ["https://www.workstream.us/a"] /\
    last_save_count s' = 0.
Proof.
  apply (non_html_is_skipped
           ALLOWED_DOMAIN absolute_only (seed_responds untyped_response)
           (state_at 7 ["https://www.workstream.us/a"]) START_URL START_URL
           untyped_response).
  - vm_compute. reflexivity.
  - apply not_elem_of_empty.
  - reflexivity.
  - simpl. lia.
  - reflexivity.
Defined.

(** The content type is compared in lower case: a PDF is skipped with
    the lower-cased header value. *)
Lemma pdf_is_skipped :
  record_after
    (iteration ALLOWED_DOMAIN absolute_only (seed_responds pdf_response)
               START_URL (state_at 0 []))
    START_URL
  = Some (SkippedNonHtml "application/pdf").
Proof. vm_compute. reflexivity. Qed.

(** *** The body fallback *)

(** X11.  A page that has a body and none of the three preferred
    containers is never recorded as a success: the removal loop of the
    fallback raises on a text of its list that is no selector, and the
    page is recorded with the status processing_error; its links are not
    followed. *)
Theorem body_fallback_is_recorded_as_error
        (ALLOWED_DOMAIN : string) (urljoin : string -> string -> exn + string)
        (fetch : string -> fetch_outcome)
        (s : state) (raw u ct : string) (r : response) (doc : soup) (body : node) :
  clean_url raw = inr u ->
  u ∉ visited_urls s ->
  fetch u = Responds r ->
  ~ (400 <= status_code r < 600)%Z ->
  content_type_header r = Some ct ->
  contains "text/html" (lower ct) = true ->
  parse r = inr doc ->
  find is_main_content doc = None ->
  find (has_name "main") doc = None ->
  find is_wrapper doc = None ->
  find (has_name "body") doc = Some body ->
  exists s' msg,
    iteration ALLOWED_DOMAIN urljoin fetch raw s = Continues s' [] /\
    crawl_data s' !! u = Some (ProcessingError msg) /\
    status (ProcessingError msg) = "processing_error" /\
    queue s' = queue s.
Proof.
  intros Hc Hv Hf Hst Hct Hhtml Hp H1 H2 H3 H4. unfold iteration. rewrite Hc.
  rewrite bool_decide_eq_false_2 by exact Hv. unfold try_body. rewrite Hf.
  rewrite (raise_for_status_passes _ Hst), Hct, Hhtml. cbn [negb]. rewrite Hp.
  rewrite (body_fallback_raises doc body H1 H2 H3 H4).
  eexists. eexists. repeat split. simpl. apply lookup_insert_eq.
Qed.

Lemma body_fallback_is_recorded_as_error_witness :
  exists s' msg,
    iteration ALLOWED_DOMAIN absolute_only (seed_answers 200 plain_page)
              START_URL (state_at 0 [])
    = Continues s' [] /\
    crawl_data s' !! START_URL = Some (ProcessingError msg) /\
    status (ProcessingError msg) = "processing_error" /\
    queue s' = [].
Proof.
  apply (body_fallback_is_recorded_as_error
           ALLOWED_DOMAIN absolute_only (seed_answers 200 plain_page)
           (state_at 0 []) START_URL START_URL "text/html; charset=UTF-8"
           (html_response 200 plain_page) plain_page
           (Tag (el "body") [Tag (el "header") [NavigableString "Menu"];
                             Tag (el "p") [NavigableString "Offer"]])).
  - vm_compute. reflexivity.
  - apply not_elem_of_empty.
  - reflexivity.
  - simpl. lia.
  - reflexivity.
  - vm_compute. reflexivity.
  - reflexivity.
  - reflexivity.
  - reflexivity.
  - reflexivity.
  - reflexivity.
Defined.

(** *** The clean-up of a dequeued URL *)

Lemma forallb_str_ext (p q : ascii -> bool) (s : string) :
  (forall a, p a = q a) -> forallb_str p s = forallb_str q s.
Proof.
  intros H. induction s as [|a r IH]; simpl; [reflexivity|]. now rewrite H, IH.
Qed.

(** X12.  The clean-up of a dequeued URL, when it does not raise, gives
    the URL itself or the URL without a run of slashes at its end, and it
    gives the URL itself whenever the URL does not end in a slash; the
    same holds, for the rebuilt URL without fragment, when a link is
    normalized. *)
Theorem clean_up_strips_only_slashes (u n : string) :
  (clean_url u = inr n ->
   exists tail, u = n +:+ tail /\ all_slashes tail = true /\
                (endswith u "/" = false -> n = u))
  /\ (normalize_link u = inr n ->
      exists p tail, urlparse u = Some p /\
                     geturl (replace_fragment_empty p) = n +:+ tail /\
                     all_slashes tail = true).
Proof.
  assert (Hstrip : forall s, exists tail,
               s = rstrip "/" s +:+ tail /\ all_slashes tail = true).
  { intros s. destruct (rstrip_by_decomposes (Ascii.eqb "/") s) as (tail & E & Ht).
    exists tail. split; [exact E|exact Ht]. }
  assert (Hsame : forall s : string, s = s +:+ EmptyString).
  { intros s. induction s as [|a r IH]; [reflexivity|].
    change (String a r = String a (r +:+ EmptyString)). now f_equal. }
  split.
  - unfold clean_url. destruct (urlparse u) as [p|]; [|discriminate].
    destruct (endswith u "/") eqn:He.
    + destruct (_ && _); intros [= <-].
      * destruct (Hstrip u) as (tail & E & Ht). exists tail.
        repeat split; auto. discriminate.
      * exists EmptyString. repeat split; auto.
    + rewrite andb_false_r. intros [= <-]. exists EmptyString. repeat split; auto.
  - unfold normalize_link. destruct (urlparse u) as [p|]; [|discriminate].
    destruct (_ && _); intros [= <-]; exists p.
    + destruct (Hstrip (geturl (replace_fragment_empty p))) as (tail & E & Ht).
      exists tail. auto.
    + exists EmptyString. auto.
Qed.

Lemma clean_up_strips_only_slashes_witness :
  exists tail, "https://www.workstream.us/blog//" = "https://www.workstream.us/blog" +:+ tail /\
               all_slashes tail = true /\
               (endswith "https://www.workstream.us/blog//" "/" = false ->
                "https://www.workstream.us/blog" = "https://www.workstream.us/blog//").
Proof.
  apply (clean_up_strips_only_slashes "https://www.workstream.us/blog//"
                                      "https://www.workstream.us/blog").
  vm_compute. reflexivity.
Defined.

(** *** The title *)

Lemma lstrip_by_first (p : ascii -> bool) (s : string) (a : ascii) :
  first_char (lstrip_by p s) = Some a -> p a = false.
Proof.
  induction s as [|b r IH]; simpl; [discriminate|].
  destruct (p b) eqn:Hb; [exact IH|]. simpl. now intros [= <-].
Qed.

Lemma rstrip_by_first (p : ascii -> bool) (s : string) (a : ascii) :
  first_char (rstrip_by p s) = Some a -> first_char s = Some a.
Proof.
  destruct s as [|b r]; [discriminate|]. cbn [rstrip_by].
  destruct (rstrip_by p r); [destruct (p b); [discriminate|]|]; simpl; auto.
Qed.

Lemma rstrip_by_last (p : ascii -> bool) (s : string) (a : ascii) :
  last_char (rstrip_by p s) = Some a -> p a = false.
Proof.
  induction s as [|b r IH]; [discriminate|]. cbn [rstrip_by].
  destruct (rstrip_by p r) as [|c r'] eqn:Hr.
  - destruct (p b) eqn:Hb; [discriminate|]. simpl. now intros [= <-].
  - intros H. apply IH. exact H.
Qed.

Lemma strip_trimmed (s : string) : trimmed (strip s).
Proof.
  unfold strip. split; intros a H.
  - apply rstrip_by_first in H. now apply lstrip_by_first in H.
  - now apply rstrip_by_last in H.
Qed.

(** X13.  The title stored for a page is the sentinel "No Title Found"
    or the string of the first title tag without the white space at its
    ends, so it has none at either end; the sentinel is used when the
    document has no title tag, when the first title tag has not exactly
    one string below it, and when that string is empty. *)
Theorem title_is_sentinel_or_trimmed (doc : soup) :
  (page_title doc = NO_TITLE \/ trimmed (page_title doc))
  /\ (find (has_name "title") doc = None -> page_title doc = NO_TITLE)
  /\ (forall title,
         find (has_name "title") doc = Some title ->
         tag_string title = None \/ tag_string title = Some EmptyString ->
         page_title doc = NO_TITLE)
  /\ (forall title s,
         find (has_name "title") doc = Some title ->
         tag_string title = Some s -> s <> EmptyString ->
         page_title doc = strip s /\ trimmed (strip s)).
Proof.
  unfold page_title. split; [|split; [|split]].
  - destruct (find (has_name "title") doc) as [t|]; [|now left].
    destruct (tag_string t) as [s|]; [|now left].
    destruct (is_empty s); [now left|right]. apply strip_trimmed.
  - now intros ->.
  - intros title -> [->| ->]; reflexivity.
  - intros title s -> -> Hs. destruct s; [contradiction|]. split; [reflexivity|].
    apply strip_trimmed.
Qed.

Lemma title_is_sentinel_or_trimmed_witness :
  (page_title titled_page = strip padded_title /\ trimmed (strip padded_title)) /\
  strip padded_title = "Pricing - Workstream" /\
  record_after titled_pass START_URL
  = Some (Success "Plans" "Pricing - Workstream" METHOD_MAIN_ID).
Proof.
  split; [|split; vm_compute; reflexivity].
  destruct (title_is_sentinel_or_trimmed titled_page) as (_ & _ & _ & H).
  apply (H (Tag (el "title") [NavigableString padded_title])).
  - vm_compute. reflexivity.
  - reflexivity.
  - intros E. vm_compute in E. discriminate E.
Defined.
